(** * BehaviourTree.h: a shallow embedding of the behaviour-tree engine

    Source: [src/behaviour_tree_test/BehaviourTree.h] and the blackboard
    types of [src/behaviour_tree_test/behaviour_tree_test.cpp].

    A node is what [virtual bool run()] is: a computation on the mutable
    state outside the node (the blackboard, [std::cout], the state of
    [rand()]) that either returns a verdict, or runs into undefined
    behaviour (a null or unset pointer is dereferenced, a signed
    subtraction overflows), or has not returned when the loop budget is
    used up.  Every C++ class is a module here; [C.run] embeds [C::run]. *)

From Stdlib Require Import List ZArith Lia Bool String Ascii Permutation.
From Stdlib Require DecimalString.
Import ListNotations.

Set Implicit Arguments.

(** ** Outcomes of a call *)

Inductive Outcome (A : Type) : Type :=
| Done (a : A)   (* the call returned [a] *)
| Fault          (* undefined behaviour was reached *)
| Timeout.       (* the loop budget ran out before the call returned *)

Arguments Fault {A}.
Arguments Timeout {A}.

Definition bind {A B : Type} (m : Outcome A) (k : A -> Outcome B) : Outcome B :=
  match m with
  | Done a => k a
  | Fault => Fault
  | Timeout => Timeout
  end.

Declare Scope outcome_scope.
Delimit Scope outcome_scope with outcome.
Notation "x <- m ;; k" := (bind m (fun x => k))
  (at level 61, m at next level, right associativity) : outcome_scope.
Notation "' p <- m ;; k" := (bind m (fun p => k))
  (at level 61, p pattern, m at next level, right associativity) : outcome_scope.
Open Scope outcome_scope.

(** ** class Node: [virtual bool run() = 0] over a world [W] *)

Definition Node (W : Type) : Type := W -> Outcome (bool * W).

(** A call through a [Node*] that may be unset: [Node* child;] has no
    initialiser in DecoratorNode. *)
Definition call {W : Type} (p : option (Node W)) : Node W :=
  match p with
  | Some c => c
  | None => fun _ => Fault
  end.

(** ** [int]: 32-bit signed; overflow is undefined behaviour *)

Definition INT_MIN : Z := - 2 ^ 31.
Definition INT_MAX : Z := 2 ^ 31 - 1.

Definition in_int (z : Z) : bool := (INT_MIN <=? z)%Z && (z <=? INT_MAX)%Z.

Definition int_of (z : Z) : Outcome Z := if in_int z then Done z else Fault.

Definition int_sub (a b : Z) : Outcome Z := int_of (a - b).
Definition int_add (a b : Z) : Outcome Z := int_of (a + b).

(** ** class CompositeNode *)

Module CompositeNode.

Record t (W : Type) : Type := make {
  children : list (Node W)   (* std::vector<Node*> children *)
}.

Definition new {W : Type} : t W := make [].

Definition getChildren {W : Type} (self : t W) : list (Node W) :=
  children self.

Definition addChild {W : Type} (child : Node W) (self : t W) : t W :=
  make (children self ++ [child]).

Definition addChildren {W : Type} (newChildren : list (Node W)) (self : t W)
  : t W :=
  fold_left (fun s child => addChild child s) newChildren self.

(** [childrenShuffled() const]: [temp] is a copy of [children], and
    [std::random_shuffle] works on [temp] in place.  The algorithm and
    the [rand()] state it draws from belong to the standard library:
    [random_shuffle] is a parameter, acting on the contents of the
    vector it is given and on the world that holds the random state. *)
Definition childrenShuffled {W : Type}
  (random_shuffle : list (Node W) -> W -> list (Node W) * W)
  (self : t W) (w : W) : list (Node W) * W :=
  let temp := children self in
  let '(temp, w) := random_shuffle temp w in
  (temp, w).

End CompositeNode.

(** ** class Selector *)

Module Selector.

Fixpoint loop {W : Type} (cs : list (Node W)) (w : W) : Outcome (bool * W) :=
  match cs with
  | [] => Done (false, w)
  | child :: rest =>
      '(r, w) <- child w ;;
      if r then Done (true, w) else loop rest w
  end.

Definition run {W : Type} (self : CompositeNode.t W) : Node W :=
  loop (CompositeNode.getChildren self).

End Selector.

(** ** class RandomSelector

    [run()] is not a const member: the model hands back the object as
    the call leaves it, next to the verdict and the world. *)

Module RandomSelector.

Fixpoint loop {W : Type} (cs : list (Node W)) (w : W) : Outcome (bool * W) :=
  match cs with
  | [] => Done (false, w)
  | child :: rest =>
      '(r, w) <- child w ;;
      if r then Done (true, w) else loop rest w
  end.

Definition run {W : Type}
  (random_shuffle : list (Node W) -> W -> list (Node W) * W)
  (self : CompositeNode.t W) (w : W)
  : Outcome (bool * (CompositeNode.t W * W)) :=
  let '(temp, w) := CompositeNode.childrenShuffled random_shuffle self w in
  '(r, w) <- loop temp w ;;
  Done (r, (self, w)).

End RandomSelector.

(** ** class Sequence *)

Module Sequence.

Fixpoint loop {W : Type} (cs : list (Node W)) (w : W) : Outcome (bool * W) :=
  match cs with
  | [] => Done (true, w)
  | child :: rest =>
      '(r, w) <- child w ;;
      if negb r then Done (false, w) else loop rest w
  end.

Definition run {W : Type} (self : CompositeNode.t W) : Node W :=
  loop (CompositeNode.getChildren self).

End Sequence.

(** ** class DecoratorNode *)

Module DecoratorNode.

Record t (W : Type) : Type := make {
  child : option (Node W)   (* Node* child; [None] while unset *)
}.

Definition new {W : Type} : t W := make None.

Definition getChild {W : Type} (self : t W) : option (Node W) := child self.

Definition setChild {W : Type} (newChild : Node W) (self : t W) : t W :=
  make (Some newChild).

End DecoratorNode.

Module Root.
Definition run {W : Type} (self : DecoratorNode.t W) : Node W :=
  fun w => call (DecoratorNode.getChild self) w.
End Root.

Module Inverter.
Definition run {W : Type} (self : DecoratorNode.t W) : Node W :=
  fun w =>
    '(r, w) <- call (DecoratorNode.getChild self) w ;;
    Done (negb r, w).
End Inverter.

Module Succeeder.
Definition run {W : Type} (self : DecoratorNode.t W) : Node W :=
  fun w =>
    '(_, w) <- call (DecoratorNode.getChild self) w ;;
    Done (true, w).
End Succeeder.

Module Failer.
Definition run {W : Type} (self : DecoratorNode.t W) : Node W :=
  fun w =>
    '(_, w) <- call (DecoratorNode.getChild self) w ;;
    Done (false, w).
End Failer.

(** ** class Repeater

    The loops of the decorators spend one unit of [fuel] each time
    their condition is tested. *)

Module Repeater.

Record t (W : Type) : Type := make {
  decorator : DecoratorNode.t W;
  numRepeats : Z               (* int numRepeats *)
}.

Definition NOT_FOUND : Z := -1.

(** [Repeater(int num = NOT_FOUND)] *)
Definition new {W : Type} (num : Z) : t W := make DecoratorNode.new num.

Definition getChild {W : Type} (self : t W) : option (Node W) :=
  DecoratorNode.getChild (decorator self).

Definition setChild {W : Type} (newChild : Node W) (self : t W) : t W :=
  make (DecoratorNode.setChild newChild (decorator self)) (numRepeats self).

(** [while (true) getChild()->run();] *)
Fixpoint forever {W : Type} (fuel : nat) (self : t W) (w : W)
  : Outcome (bool * W) :=
  match fuel with
  | O => Timeout
  | S fuel =>
      '(_, w) <- call (getChild self) w ;;
      forever fuel self w
  end.

(** [for (int i = 0; i < numRepeats - 1; i++) getChild()->run();]
    from the current value of [i]. *)
Fixpoint for_loop {W : Type} (fuel : nat) (self : t W) (i : Z) (w : W)
  : Outcome W :=
  match fuel with
  | O => Timeout
  | S fuel =>
      bound <- int_sub (numRepeats self) 1 ;;
      if (i <? bound)%Z then
        '(_, w) <- call (getChild self) w ;;
        i <- int_add i 1 ;;
        for_loop fuel self i w
      else Done w
  end.

Definition run {W : Type} (fuel : nat) (self : t W) : Node W :=
  fun w =>
    if (numRepeats self =? NOT_FOUND)%Z then forever fuel self w
    else
      w <- for_loop fuel self 0 w ;;
      call (getChild self) w.

End Repeater.

(** ** class RepeatUntilFail *)

Module RepeatUntilFail.

(** [while (getChild()->run()) {}] *)
Fixpoint while {W : Type} (fuel : nat) (self : DecoratorNode.t W) (w : W)
  : Outcome W :=
  match fuel with
  | O => Timeout
  | S fuel =>
      '(r, w) <- call (DecoratorNode.getChild self) w ;;
      if r then while fuel self w else Done w
  end.

Definition run {W : Type} (fuel : nat) (self : DecoratorNode.t W) : Node W :=
  fun w =>
    w <- while fuel self w ;;
    Done (true, w).

End RepeatUntilFail.

(** ** The blackboard

    [T] is [Door] throughout: the diagnostics of PopFromStack and
    SetVariable read [doorNumber].  A [T*] is null or points to a door;
    a [std::stack<T*>] is the list of its elements, top first.  The
    nodes hold references ([std::stack<T*>&], [T*&]): stacks and
    pointer slots live in the world under a name, and two references
    may name the same object. *)

Record Door : Type := mkDoor {
  doorNumber : Z   (* int doorNumber *)
}.

Definition Ptr : Type := option Door.

Definition nullptr : Ptr := None.

Definition StackRef : Type := nat.
Definition SlotRef : Type := nat.

Record World : Type := mkWorld {
  stacks : StackRef -> list Ptr;
  slots : SlotRef -> Ptr;
  cout : string
}.

Definition set_stack (s : StackRef) (l : list Ptr) (w : World) : World :=
  mkWorld (fun s' => if Nat.eqb s' s then l else stacks w s') (slots w) (cout w).

Definition set_slot (v : SlotRef) (p : Ptr) (w : World) : World :=
  mkWorld (stacks w) (fun v' => if Nat.eqb v' v then p else slots w v') (cout w).

(** [std::cout << text] *)
Definition print (text : string) (w : World) : World :=
  mkWorld (stacks w) (slots w) (cout w ++ text).

(** [operator<<(int)] *)
Definition show_int (n : Z) : string :=
  DecimalString.NilZero.string_of_int (Z.to_int n).

Definition endl : string := String (ascii_of_nat 10) EmptyString.

(** [p->doorNumber] *)
Definition arrow_doorNumber (p : Ptr) : Outcome Z :=
  match p with
  | Some d => Done (doorNumber d)
  | None => Fault
  end.

(** [std::stack]: [empty()], [push()], and [top()] and [pop()], which
    are undefined on an empty stack. *)
Definition stack_empty (l : list Ptr) : bool :=
  match l with [] => true | _ :: _ => false end.

Definition stack_push (p : Ptr) (l : list Ptr) : list Ptr := p :: l.

Definition stack_top (l : list Ptr) : Outcome Ptr :=
  match l with [] => Fault | p :: _ => Done p end.

Definition stack_pop (l : list Ptr) : Outcome (list Ptr) :=
  match l with [] => Fault | _ :: rest => Done rest end.

(** ** Leaves on a stack and on pointer slots *)

Module PushToStack.

Record t : Type := make {
  item : SlotRef;     (* T*& item *)
  stack : StackRef    (* std::stack<T*>& stack *)
}.

Definition run (self : t) : Node World :=
  fun w =>
    let w := set_stack (stack self)
               (stack_push (slots w (item self)) (stacks w (stack self))) w in
    Done (true, w).

End PushToStack.

Module GetStack.

Record t : Type := make {
  stack : StackRef;           (* std::stack<T*>& stack *)
  obtainedStack : StackRef;   (* const std::stack<T*>& obtainedStack *)
  object : Ptr                (* T* object *)
}.

(** [GetStack(s, o, t = nullptr)] *)
Definition new (s o : StackRef) : t := make s o nullptr.

Definition run (self : t) : Node World :=
  fun w =>
    let w := set_stack (stack self) (stacks w (obtainedStack self)) w in
    let w :=
      match object self with
      | Some _ =>
          set_stack (stack self)
            (stack_push (object self) (stacks w (stack self))) w
      | None => w
      end in
    Done (true, w).

End GetStack.

Module PopFromStack.

Record t : Type := make {
  item : SlotRef;     (* T*& item *)
  stack : StackRef    (* std::stack<T*>& stack *)
}.

Definition run (self : t) : Node World :=
  fun w =>
    if stack_empty (stacks w (stack self)) then Done (false, w)
    else
      top <- stack_top (stacks w (stack self)) ;;
      let w := set_slot (item self) top w in
      n <- arrow_doorNumber (slots w (item self)) ;;
      let w := print ("Trying to get through door #" ++ show_int n ++ "."
                      ++ endl) w in
      rest <- stack_pop (stacks w (stack self)) ;;
      let w := set_stack (stack self) rest w in
      Done (true, w).

End PopFromStack.

Module StackIsEmpty.

Record t : Type := make {
  stack : StackRef    (* std::stack<T*>& stack *)
}.

Definition run (self : t) : Node World :=
  fun w => Done (stack_empty (stacks w (stack self)), w).

End StackIsEmpty.

Module SetVariable.

Record t : Type := make {
  variable : SlotRef;   (* T*& variable *)
  object : SlotRef      (* T*& object *)
}.

Definition run (self : t) : Node World :=
  fun w =>
    let w := set_slot (variable self) (slots w (object self)) w in
    n <- arrow_doorNumber (slots w (variable self)) ;;
    let w := print ("The door that was used to get in is door #"
                    ++ show_int n ++ "." ++ endl) w in
    Done (true, w).

End SetVariable.

Module IsNull.

Record t : Type := make {
  object : SlotRef      (* T*& object *)
}.

Definition run (self : t) : Node World :=
  fun w =>
    Done (match slots w (object self) with None => true | Some _ => false end, w).

End IsNull.

(** ** Worlds and mutations used to state the properties *)

(** The blackboard of [main] before the tree runs: no stack holds an
    element, no slot holds a door, nothing was printed. *)
Definition emptyWorld : World :=
  mkWorld (fun _ => []) (fun _ => nullptr) EmptyString.

(** [w2] comes from [w1] by a mutation of the stack [s] alone. *)
Definition mutates_stack (s : StackRef) (w1 w2 : World) : Prop :=
  forall s', s' <> s -> stacks w2 s' = stacks w1 s'.

(** What GetStack leaves in its destination: the elements of the
    source, under the bound object when there is one. *)
Definition snapshot (object : Ptr) (source : list Ptr) : list Ptr :=
  match object with
  | Some _ => object :: source
  | None => source
  end.

(** The destination of a GetStack node keeps its contents through
    every later mutation of the source. *)
Definition snapshot_independent (self : GetStack.t) (w : World) : Prop :=
  forall w' w'',
    GetStack.run self w = Done (true, w') ->
    mutates_stack (GetStack.obtainedStack self) w' w'' ->
    stacks w'' (GetStack.stack self) = stacks w' (GetStack.stack self).

(** A stand-in for [std::random_shuffle] that reverses the vector and
    draws nothing from the random state. *)
Definition reversing_shuffle {A W : Type} (l : list A) (w : W) : list A * W :=
  (rev l, w).

(** ** Probes and stubs

    A probe wraps a child so that each of its calls that returns leaves
    an entry in a log kept next to the world: a counting stub around
    any child. *)

Definition probe {W L : Type} (entry : bool -> L) (c : Node W)
  : Node (W * list L) :=
  fun '(w, log) =>
    '(r, w) <- c w ;;
    Done (r, (w, log ++ [entry r])).

(** The children of a composite, each probed under its index. *)
Fixpoint probes_from {W : Type} (i : nat) (cs : list (Node W))
  : list (Node (W * list (nat * bool))) :=
  match cs with
  | [] => []
  | c :: rest => probe (pair i) c :: probes_from (S i) rest
  end.

Definition probes {W : Type} (cs : list (Node W)) := probes_from 0 cs.

(** A child returns in a world when its call there is [Done]; it is
    total when it returns in every world; its verdict is fixed when it
    returns the same verdict in every world. *)
Definition returns {W : Type} (c : Node W) (w : W) : Prop :=
  exists r w', c w = Done (r, w').

Definition total {W : Type} (c : Node W) : Prop := forall w, returns c w.

Definition always {W : Type} (c : Node W) (r : bool) : Prop :=
  forall w, exists w', c w = Done (r, w').

(** A leaf with a fixed verdict and an effect on the world. *)
Definition stub {W : Type} (r : bool) (effect : W -> W) : Node W :=
  fun w => Done (r, effect w).

(** A leaf that succeeds while the counter it finds in the world is
    positive, and takes one off it. *)
Definition countdown : Node nat :=
  fun w => Done (Nat.ltb 0 w, Nat.pred w).

(** The outcome of the call number [n] (from 0) in a row of calls of
    one child that starts in [w]. *)
Fixpoint nth_call {W : Type} (c : Node W) (n : nat) (w : W)
  : Outcome (bool * W) :=
  match n with
  | O => c w
  | S n => '(_, w) <- c w ;; nth_call c n w
  end.

(** The log a probe has written when it went, one call after another,
    through the verdicts [rs]. *)
Definition trail (k : nat) (rs : list bool) : list (nat * bool) :=
  combine (seq k (List.length rs)) rs.

(** ** class BehaviourTree: the tree and its root *)

Module BehaviourTree.

Record t (W : Type) : Type := make {
  root : DecoratorNode.t W   (* Root* root, set to [new Root] *)
}.

Definition new {W : Type} : t W := make DecoratorNode.new.

Definition setRootChild {W : Type} (rootChild : Node W) (self : t W) : t W :=
  make (DecoratorNode.setChild rootChild (root self)).

Definition run {W : Type} (self : t W) : Node W := Root.run (root self).

End BehaviourTree.

(** ** behaviour_tree_test.cpp: class Building *)

Module Building.

Record t : Type := make {
  doors : list Ptr   (* std::stack<Door*> doors *)
}.

Definition getDoors (self : t) : list Ptr := doors self.

(** [for (int i = 0; i < numDoors; i++) doors.push(new Door{ numDoors - i });]
    from the current value of [i]. *)
Fixpoint initializeBuilding_loop (fuel : nat) (numDoors i : Z) (doors : list Ptr)
  : Outcome (list Ptr) :=
  match fuel with
  | O => Timeout
  | S fuel =>
      if (i <? numDoors)%Z then
        n <- int_sub numDoors i ;;
        let doors := stack_push (Some (mkDoor n)) doors in
        i <- int_add i 1 ;;
        initializeBuilding_loop fuel numDoors i doors
      else Done doors
  end.

Definition initializeBuilding (fuel : nat) (numDoors : Z) (self : t) : Outcome t :=
  doors <- initializeBuilding_loop fuel numDoors 0 (doors self) ;;
  Done (make doors).

(** [Building(int numDoors)] *)
Definition new (fuel : nat) (numDoors : Z) : Outcome t :=
  initializeBuilding fuel numDoors (make []).

End Building.

(** ** behaviour_tree_test.cpp: class DoorAction and [main]

    [std::rand()] is a parameter: a step on the state [R] of the random
    source that yields the number drawn.  The nodes of [main] run on the
    blackboard together with that state. *)

(** A node of the blackboard, run where the random state is kept too. *)
Definition on_data {R : Type} (c : Node World) : Node (World * R) :=
  fun '(w, g) =>
    '(r, w) <- c w ;;
    Done (r, (w, g)).

Module DoorAction.

Record t : Type := make {
  name : string;                (* std::string name *)
  probabilityOfSuccess : Z      (* int probabilityOfSuccess *)
}.

Definition run {R : Type} (rand : R -> Z * R) (self : t) : Node (World * R) :=
  fun '(w, g) =>
    let '(x, g) := rand g in
    if (Z.rem x 100 <? probabilityOfSuccess self)%Z then
      Done (true, (print (name self ++ " succeeded." ++ endl) w, g))
    else
      Done (false, (print (name self ++ " failed." ++ endl) w, g)).

End DoorAction.

(** The objects of [main] that the leaves refer to: [data.doors] and
    the stack inside [building], [data.currentDoor] and [data.usedDoor]. *)
Definition data_doors : StackRef := 0.
Definition building_doors : StackRef := 1.
Definition data_currentDoor : SlotRef := 0.
Definition data_usedDoor : SlotRef := 1.

Section Main.

Variable R : Type.
Variable rand : R -> Z * R.
Variable fuel : nat.

Definition getDoorStackFromBuilding : GetStack.t :=
  GetStack.new data_doors building_doors.
Definition popFromStack : PopFromStack.t :=
  PopFromStack.make data_currentDoor data_doors.
Definition setVariable : SetVariable.t :=
  SetVariable.make data_usedDoor data_currentDoor.
Definition isNull : IsNull.t := IsNull.make data_usedDoor.

Definition walkToDoor : DoorAction.t := DoorAction.make "Walk to door" 99.
Definition openDoor : DoorAction.t := DoorAction.make "Open door" 15.
Definition unlockDoor : DoorAction.t := DoorAction.make "Unlock door" 25.
Definition smashDoor : DoorAction.t := DoorAction.make "Smash door" 60.
Definition walkThroughDoor : DoorAction.t :=
  DoorAction.make "Walk through door" 60.
Definition closeDoor : DoorAction.t := DoorAction.make "Close door" 100.

(** The wiring of [main], from the leaves up. *)
Definition selector : CompositeNode.t (World * R) :=
  CompositeNode.addChildren
    [DoorAction.run rand openDoor; DoorAction.run rand unlockDoor;
     DoorAction.run rand smashDoor]
    CompositeNode.new.

Definition succeeder : DecoratorNode.t (World * R) :=
  DecoratorNode.setChild (DoorAction.run rand closeDoor) DecoratorNode.new.

Definition sequence2 : CompositeNode.t (World * R) :=
  CompositeNode.addChildren
    [DoorAction.run rand walkToDoor; Selector.run selector;
     DoorAction.run rand walkThroughDoor; Succeeder.run succeeder;
     on_data (SetVariable.run setVariable)]
    CompositeNode.new.

Definition inverter1 : DecoratorNode.t (World * R) :=
  DecoratorNode.setChild (Sequence.run sequence2) DecoratorNode.new.

Definition sequence1 : CompositeNode.t (World * R) :=
  CompositeNode.addChildren
    [on_data (PopFromStack.run popFromStack); Inverter.run inverter1]
    CompositeNode.new.

Definition untilFail : DecoratorNode.t (World * R) :=
  DecoratorNode.setChild (Sequence.run sequence1) DecoratorNode.new.

Definition inverter0 : DecoratorNode.t (World * R) :=
  DecoratorNode.setChild (on_data (IsNull.run isNull)) DecoratorNode.new.

Definition sequence0 : CompositeNode.t (World * R) :=
  CompositeNode.addChildren
    [on_data (GetStack.run getDoorStackFromBuilding);
     RepeatUntilFail.run fuel untilFail; Inverter.run inverter0]
    CompositeNode.new.

Definition behaviorTree : BehaviourTree.t (World * R) :=
  BehaviourTree.setRootChild (Sequence.run sequence0) BehaviourTree.new.

(** The blackboard when the tree starts: [data.doors] is empty,
    [data.usedDoor] is null, [data.currentDoor] has no initialiser and
    holds whatever [garbage] is. *)
Definition initialWorld (building : Building.t) (garbage : Ptr) : World :=
  set_slot data_currentDoor garbage
    (set_stack building_doors (Building.getDoors building) emptyWorld).

(** [main], from the state [g] the random source has after [srand]. *)
Definition main (g : R) (garbage : Ptr) : Outcome (World * R) :=
  building <- Building.new fuel 5 ;;
  '(r, (w, g)) <- BehaviourTree.run behaviorTree (initialWorld building garbage, g) ;;
  if r then
    Done (print ("Congratulations!  You made it into the building!" ++ endl) w, g)
  else
    Done (print ("Sorry.  You have failed to enter the building." ++ endl) w, g).

End Main.

(** A random source that counts up from its state: a stand-in for
    [std::rand] used to run [main]. *)
Definition counting_rand (g : Z) : Z * Z := (g, (g + 37)%Z).

(** The door numbered [k], as a pointer on a stack. *)
Definition door (k : nat) : Ptr := Some (mkDoor (Z.of_nat k)).

(** A node that returns in every world and changes nothing on the
    blackboard but the output. *)
Definition keeps_board {R : Type} (c : Node (World * R)) : Prop :=
  forall w g, exists r w' g',
    c (w, g) = Done (r, (w', g'))
    /\ stacks w' = stacks w /\ slots w' = slots w.

(** * Properties *)

Unset Implicit Arguments.

(** ** The outcome monad and the probes *)

Lemma bind_Done {A B : Type} (m : Outcome A) (k : A -> Outcome B) (a : A) :
  m = Done a -> bind m k = k a.
Proof. intros ->. reflexivity. Qed.

Lemma probe_Done {W L : Type} (entry : bool -> L) (c : Node W) w log r w' :
  c w = Done (r, w') ->
  probe entry c (w, log) = Done (r, (w', log ++ [entry r])).
Proof. intros H. unfold probe. rewrite H. reflexivity. Qed.

Lemma probe_total {W L : Type} (entry : bool -> L) (c : Node W) :
  total c -> total (probe entry c).
Proof.
  intros H [w log]. destruct (H w) as (r & w' & E).
  exists r, (w', log ++ [entry r]). now apply probe_Done.
Qed.

Lemma stub_total {W : Type} (r : bool) (effect : W -> W) : total (stub r effect).
Proof. intros w. exists r, (effect w). reflexivity. Qed.

Lemma stub_always {W : Type} (r : bool) (effect : W -> W) :
  always (stub r effect) r.
Proof. intros w. exists (effect w). reflexivity. Qed.

Lemma trail_cons (k : nat) (r : bool) (rs : list bool) :
  trail k (r :: rs) = (k, r) :: trail (S k) rs.
Proof. reflexivity. Qed.

Lemma getChildren_addChildren {W : Type} (l : list (Node W)) (self : CompositeNode.t W) :
  CompositeNode.getChildren (CompositeNode.addChildren l self)
  = CompositeNode.getChildren self ++ l.
Proof.
  unfold CompositeNode.addChildren, CompositeNode.getChildren.
  revert self. induction l as [|c l IH]; intros self; simpl.
  - now rewrite app_nil_r.
  - rewrite IH. simpl. now rewrite <- app_assoc.
Qed.

Lemma probes_from_length {W : Type} (cs : list (Node W)) (i : nat) :
  List.length (probes_from i cs) = List.length cs.
Proof. revert i. induction cs; intros i; simpl; auto. Qed.

(** ** Selector *)

Lemma Selector_loop_probes {W : Type} (cs : list (Node W)) :
  (forall c, In c cs -> total c) ->
  forall i w log,
  exists r w' rs,
    Selector.loop (probes_from i cs) (w, log) = Done (r, (w', log ++ trail i rs))
    /\ (r = true -> exists k, k < List.length cs /\ rs = repeat false k ++ [true])
    /\ (r = false -> rs = repeat false (List.length cs)).
Proof.
  induction cs as [|c cs IH]; intros Htot i w log.
  - exists false, w, []. simpl. rewrite app_nil_r. repeat split; congruence.
  - destruct (Htot c (or_introl eq_refl) w) as (r & w1 & Ec).
    cbn [Selector.loop probes_from]. erewrite probe_Done by exact Ec. cbn [bind].
    destruct r.
    + exists true, w1, [true]. repeat split; try congruence.
      intros _. exists 0. simpl. split; [lia | reflexivity].
    + destruct (IH (fun c' H => Htot c' (or_intror H)) (S i) w1 (log ++ [(i, false)]))
        as (r & w' & rs & E & Ht & Hf).
      exists r, w', (false :: rs). rewrite E, trail_cons, <- app_assoc.
      repeat split; try reflexivity.
      * intros Hr. destruct (Ht Hr) as (k & Hk & ->).
        exists (S k). simpl. split; [lia | reflexivity].
      * intros Hr. rewrite (Hf Hr). reflexivity.
Qed.

(** C1. A Selector whose children all return, run with a probe on
    every child: the log holds the children that were called, in list
    order from the first one, each once, with its verdict.  The run
    returns true exactly when a child returned true; that child is then
    the last one called, after children that all returned false; on
    false every child was called.  Without children the run returns
    false and leaves the world as it was. *)
Theorem Selector_run_first_success {W : Type} (cs : list (Node W)) (w : W) :
  (forall c, In c cs -> total c) ->
  (exists r w' rs,
     Selector.run (CompositeNode.addChildren (probes cs) CompositeNode.new) (w, [])
     = Done (r, (w', trail 0 rs))
     /\ (r = true <-> In true rs)
     /\ (r = true -> exists k, k < List.length cs /\ rs = repeat false k ++ [true])
     /\ (r = false -> rs = repeat false (List.length cs)))
  /\ Selector.run CompositeNode.new w = Done (false, w).
Proof.
  intros Htot. split; [|reflexivity].
  destruct (Selector_loop_probes cs Htot 0 w []) as (r & w' & rs & E & Ht & Hf).
  exists r, w', rs. unfold Selector.run.
  rewrite getChildren_addChildren. simpl app. fold (probes cs) in E.
  repeat split; auto.
  - intros Hr. destruct (Ht Hr) as (k & _ & ->). apply in_or_app. right. now left.
  - intros Hin. destruct r; [reflexivity|].
    rewrite (Hf eq_refl) in Hin. apply repeat_spec in Hin. congruence.
Qed.

Lemma Selector_run_first_success_witness :
  exists r w' rs,
    Selector.run (CompositeNode.addChildren
                    (probes [stub false S; stub true S; stub false S])
                    CompositeNode.new) (0, [])
    = Done (r, (w', trail 0 rs))
    /\ (r = true <-> In true rs)
    /\ (r = true -> exists k, k < 3 /\ rs = repeat false k ++ [true])
    /\ (r = false -> rs = repeat false 3).
Proof.
  refine (proj1 (Selector_run_first_success
                   [stub false S; stub true S; stub false S] 0 _)).
  intros c [<- | [<- | [<- | []]]]; apply stub_total.
Defined.

(** ** Sequence *)

Lemma Sequence_loop_probes {W : Type} (cs : list (Node W)) :
  (forall c, In c cs -> total c) ->
  forall i w log,
  exists r w' rs,
    Sequence.loop (probes_from i cs) (w, log) = Done (r, (w', log ++ trail i rs))
    /\ (r = false -> exists k, k < List.length cs /\ rs = repeat true k ++ [false])
    /\ (r = true -> rs = repeat true (List.length cs)).
Proof.
  induction cs as [|c cs IH]; intros Htot i w log.
  - exists true, w, []. simpl. rewrite app_nil_r. repeat split; congruence.
  - destruct (Htot c (or_introl eq_refl) w) as (r & w1 & Ec).
    cbn [Sequence.loop probes_from]. erewrite probe_Done by exact Ec. cbn [bind].
    destruct r; cbn [negb].
    + destruct (IH (fun c' H => Htot c' (or_intror H)) (S i) w1 (log ++ [(i, true)]))
        as (r & w' & rs & E & Hf & Ht).
      exists r, w', (true :: rs). rewrite E, trail_cons, <- app_assoc.
      repeat split; try reflexivity.
      * intros Hr. destruct (Hf Hr) as (k & Hk & ->).
        exists (S k). simpl. split; [lia | reflexivity].
      * intros Hr. rewrite (Ht Hr). reflexivity.
    + exists false, w1, [false]. repeat split; try congruence.
      intros _. exists 0. simpl. split; [lia | reflexivity].
Qed.

(** C2. A Sequence whose children all return, run with a probe on
    every child: the log holds the children that were called, in list
    order from the first one, each once, with its verdict.  The run
    returns true exactly when every child returned true, and then every
    child was called; on false the last child called is the one that
    returned false, after children that all returned true.  Without
    children the run returns true and leaves the world as it was. *)
Theorem Sequence_run_first_failure {W : Type} (cs : list (Node W)) (w : W) :
  (forall c, In c cs -> total c) ->
  (exists r w' rs,
     Sequence.run (CompositeNode.addChildren (probes cs) CompositeNode.new) (w, [])
     = Done (r, (w', trail 0 rs))
     /\ (r = true <-> List.length rs = List.length cs /\ forall x, In x rs -> x = true)
     /\ (r = false -> exists k, k < List.length cs /\ rs = repeat true k ++ [false])
     /\ (r = true -> rs = repeat true (List.length cs)))
  /\ Sequence.run CompositeNode.new w = Done (true, w).
Proof.
  intros Htot. split; [|reflexivity].
  destruct (Sequence_loop_probes cs Htot 0 w []) as (r & w' & rs & E & Hf & Ht).
  exists r, w', rs. unfold Sequence.run.
  rewrite getChildren_addChildren. simpl app. fold (probes cs) in E.
  repeat split; auto.
  - rewrite (Ht H). apply repeat_length.
  - intros x Hx. rewrite (Ht H) in Hx. now apply repeat_spec in Hx.
  - intros [Hlen Hall]. destruct r; [reflexivity|].
    destruct (Hf eq_refl) as (k & _ & ->).
    apply Hall, in_or_app. right. now left.
Qed.

Lemma Sequence_run_first_failure_witness :
  exists r w' rs,
    Sequence.run (CompositeNode.addChildren
                    (probes [stub true S; stub false S; stub true S])
                    CompositeNode.new) (0, [])
    = Done (r, (w', trail 0 rs))
    /\ (r = true <-> List.length rs = 3 /\ forall x, In x rs -> x = true)
    /\ (r = false -> exists k, k < 3 /\ rs = repeat true k ++ [false])
    /\ (r = true -> rs = repeat true 3).
Proof.
  refine (proj1 (Sequence_run_first_failure
                   [stub true S; stub false S; stub true S] 0 _)).
  intros c [<- | [<- | [<- | []]]]; apply stub_total.
Defined.

(** ** Decorators *)

Lemma nth_call_S {W : Type} (c : Node W) (n : nat) (w w1 : W) (r : bool) :
  c w = Done (r, w1) -> nth_call c (S n) w = nth_call c n w1.
Proof. intros H. simpl. rewrite H. reflexivity. Qed.

Lemma getChild_setChild {W : Type} (c : Node W) (d : DecoratorNode.t W) :
  DecoratorNode.getChild (DecoratorNode.setChild c d) = Some c.
Proof. reflexivity. Qed.

Lemma Repeater_getChild_setChild {W : Type} (c : Node W) (self : Repeater.t W) :
  Repeater.getChild (Repeater.setChild c self) = Some c.
Proof. reflexivity. Qed.

Lemma Repeater_numRepeats_setChild {W : Type} (c : Node W) (num : Z) :
  Repeater.numRepeats (Repeater.setChild c (Repeater.new num)) = num.
Proof. reflexivity. Qed.

Lemma int_of_in_range (z : Z) :
  (INT_MIN <= z <= INT_MAX)%Z -> int_of z = Done z.
Proof.
  intros [Hlo Hhi]. unfold int_of, in_int.
  apply Z.leb_le in Hlo, Hhi. now rewrite Hlo, Hhi.
Qed.

(** C8. A Succeeder over any child, in a world where the child
    returns: the child is called exactly once (one entry in the log,
    the world is the one the child left) and the run returns true
    whatever the child returned. *)
Theorem Succeeder_run_once {W : Type} (c : Node W)
  (d : DecoratorNode.t (W * list bool)) (w w' : W) (r : bool) :
  c w = Done (r, w') ->
  Succeeder.run (DecoratorNode.setChild (probe id c) d) (w, [])
  = Done (true, (w', [r])).
Proof.
  intros H. unfold Succeeder.run. rewrite getChild_setChild. cbn [call].
  erewrite probe_Done by exact H. reflexivity.
Qed.

Lemma Succeeder_run_once_witness :
  stub false S 0 = Done (false, 1)
  /\ Succeeder.run (DecoratorNode.setChild (probe id (stub false S))
                      DecoratorNode.new) (0, [])
     = Done (true, (1, [false])).
Proof.
  split; [reflexivity|].
  apply (Succeeder_run_once (stub false S) DecoratorNode.new 0 1 false).
  reflexivity.
Defined.

(** The counted loop of Repeater: [k] more rounds are due when [i] is
    [k] below the bound. *)
Lemma Repeater_for_loop_rounds {W : Type} (c : Node W) (num : Z) :
  total c ->
  forall (k fuel : nat) (i : Z) (w : W) (log : list bool),
    (0 <= i)%Z -> (i + Z.of_nat k = num - 1)%Z -> (num <= INT_MAX)%Z ->
    k < fuel ->
    exists w' rs,
      Repeater.for_loop fuel (Repeater.setChild (probe id c) (Repeater.new num))
        i (w, log)
      = Done (w', log ++ rs)
      /\ List.length rs = k
      /\ forall m, nth_call c (k + m) w = nth_call c m w'.
Proof.
  intros Htot. induction k as [|k IH]; intros fuel i w log Hi Hk Hmax Hfuel;
    (destruct fuel as [|fuel]; [lia|]); cbn [Repeater.for_loop];
    rewrite Repeater_numRepeats_setChild; unfold int_sub;
    (rewrite int_of_in_range by (unfold INT_MIN, INT_MAX in *; lia));
    cbn [bind].
  - replace (i <? num - 1)%Z with false by (symmetry; apply Z.ltb_ge; lia).
    exists w, []. rewrite app_nil_r. auto.
  - replace (i <? num - 1)%Z with true by (symmetry; apply Z.ltb_lt; lia).
    destruct (Htot w) as (r & w1 & Ec).
    rewrite Repeater_getChild_setChild. cbn [call].
    erewrite probe_Done by exact Ec. cbn [bind].
    unfold int_add. rewrite int_of_in_range by (unfold INT_MIN, INT_MAX in *; lia).
    cbn [bind].
    destruct (IH fuel (i + 1)%Z w1 (log ++ [id r])) as (w' & rs & E & Hlen & Hnth);
      try lia.
    exists w', (r :: rs). split; [|split].
    + etransitivity; [exact E|]. now rewrite <- app_assoc.
    + simpl. now rewrite Hlen.
    + intros m. cbn [Nat.add]. rewrite (nth_call_S c (k + m) w w1 r Ec). apply Hnth.
Qed.

(** C5. A Repeater with a positive count [num] over a total child,
    given fuel for [num] loop tests: the child is called exactly [num]
    times (the log holds [num] verdicts), and the run returns the verdict
    and the world of the last of these calls (the last verdict in the
    log, the call number [num - 1] from 0); the earlier verdicts are in
    the log only. *)
Theorem Repeater_run_positive {W : Type} (c : Node W) (num : Z) (fuel : nat) (w : W) :
  total c ->
  (0 < num <= INT_MAX)%Z ->
  Z.to_nat num <= fuel ->
  exists r w' rs,
    Repeater.run fuel (Repeater.setChild (probe id c) (Repeater.new num)) (w, [])
    = Done (r, (w', rs))
    /\ List.length rs = Z.to_nat num
    /\ last rs (negb r) = r
    /\ nth_call c (Z.to_nat num - 1) w = Done (r, w').
Proof.
  intros Htot Hnum Hfuel. unfold Repeater.run.
  rewrite Repeater_numRepeats_setChild.
  replace (num =? Repeater.NOT_FOUND)%Z with false
    by (symmetry; apply Z.eqb_neq; unfold Repeater.NOT_FOUND; lia).
  destruct (Repeater_for_loop_rounds c num Htot (Z.to_nat num - 1) fuel 0%Z w [])
    as (w1 & rs & E & Hlen & Hnth); try lia.
  rewrite E. cbn [bind app].
  destruct (Htot w1) as (r & w' & Ec).
  rewrite Repeater_getChild_setChild. cbn [call].
  erewrite probe_Done by exact Ec.
  exists r, w', (rs ++ [id r]). repeat split.
  - rewrite length_app, Hlen. simpl. lia.
  - now rewrite last_last.
  - specialize (Hnth 0). rewrite Nat.add_0_r in Hnth. rewrite Hnth. exact Ec.
Qed.

Lemma Repeater_run_positive_witness :
  exists r w' rs,
    Repeater.run 3 (Repeater.setChild (probe id (stub true S)) (Repeater.new 3))
      (0, [])
    = Done (r, (w', rs))
    /\ List.length rs = Z.to_nat 3
    /\ last rs (negb r) = r
    /\ nth_call (stub true S) (Z.to_nat 3 - 1) 0 = Done (r, w').
Proof.
  apply (Repeater_run_positive (stub true S) 3 3 0).
  - apply stub_total.
  - unfold INT_MAX. lia.
  - simpl. lia.
Defined.

(** C10. A Repeater with count 0 over any child, in a world where the
    child returns and with fuel for one loop test: the counted loop
    does no round, the child is called exactly once, and the run
    returns the verdict of that call. *)
Theorem Repeater_run_zero {W : Type} (c : Node W) (fuel : nat) (w w' : W) (r : bool) :
  c w = Done (r, w') ->
  0 < fuel ->
  Repeater.run fuel (Repeater.setChild (probe id c) (Repeater.new 0)) (w, [])
  = Done (r, (w', [r])).
Proof.
  intros Ec Hfuel. destruct fuel as [|fuel]; [lia|].
  unfold Repeater.run. rewrite Repeater_numRepeats_setChild.
  change (0 =? Repeater.NOT_FOUND)%Z with false.
  cbn [Repeater.for_loop]. rewrite Repeater_numRepeats_setChild.
  change (int_sub 0 1) with (Done (-1)%Z). cbn [bind].
  change (0 <? -1)%Z with false. cbn [bind].
  rewrite Repeater_getChild_setChild. cbn [call].
  erewrite probe_Done by exact Ec. reflexivity.
Qed.

Lemma Repeater_run_zero_witness :
  stub false S 0 = Done (false, 1)
  /\ 0 < 1
  /\ Repeater.run 1 (Repeater.setChild (probe id (stub false S)) (Repeater.new 0))
       (0, [])
     = Done (false, (1, [false])).
Proof.
  split; [reflexivity|]. split; [lia|].
  apply (Repeater_run_zero (stub false S) 1 0 1 false).
  - reflexivity.
  - lia.
Defined.

Lemma RepeatUntilFail_while_rounds {W : Type} (c : Node W)
  (d : DecoratorNode.t (W * list bool)) :
  forall (k fuel : nat) (w wk : W) (log : list bool),
    (forall j, j < k -> exists wj, nth_call c j w = Done (true, wj)) ->
    nth_call c k w = Done (false, wk) ->
    k < fuel ->
    RepeatUntilFail.while fuel (DecoratorNode.setChild (probe id c) d) (w, log)
    = Done (wk, log ++ repeat true k ++ [false]).
Proof.
  induction k as [|k IH]; intros fuel w wk log Htrue Hfalse Hfuel;
    (destruct fuel as [|fuel]; [lia|]); cbn [RepeatUntilFail.while];
    rewrite getChild_setChild; cbn [call].
  - cbn [nth_call] in Hfalse. erewrite probe_Done by exact Hfalse. reflexivity.
  - destruct (Htrue 0) as (w1 & E1); [lia|]. cbn [nth_call] in E1.
    erewrite probe_Done by exact E1. cbn [bind].
    rewrite (IH fuel w1 wk (log ++ [id true])).
    + cbn [repeat]. now rewrite <- app_assoc.
    + intros j Hj. destruct (Htrue (S j)) as (wj & Ej); [lia|].
      exists wj. now rewrite <- (nth_call_S c j w w1 true E1).
    + now rewrite <- (nth_call_S c k w w1 true E1).
    + lia.
Qed.

(** C6. RepeatUntilFail over a child whose calls in a row, from the
    world [w], return true [k] times and then false: given fuel for
    [k + 1] loop tests, the run returns true, the child was called
    exactly [k + 1] times (the log holds the [k] verdicts true and the
    one false), and the world is the one the failing call left. *)
Theorem RepeatUntilFail_run_until_first_false {W : Type} (c : Node W)
  (d : DecoratorNode.t (W * list bool)) (k fuel : nat) (w wk : W) :
  (forall j, j < k -> exists wj, nth_call c j w = Done (true, wj)) ->
  nth_call c k w = Done (false, wk) ->
  k < fuel ->
  RepeatUntilFail.run fuel (DecoratorNode.setChild (probe id c) d) (w, [])
  = Done (true, (wk, repeat true k ++ [false])).
Proof.
  intros Htrue Hfalse Hfuel. unfold RepeatUntilFail.run.
  rewrite (RepeatUntilFail_while_rounds c d k fuel w wk [] Htrue Hfalse Hfuel).
  reflexivity.
Qed.

Lemma RepeatUntilFail_run_until_first_false_witness :
  (forall j, j < 2 -> exists wj, nth_call countdown j 2 = Done (true, wj))
  /\ nth_call countdown 2 2 = Done (false, 0)
  /\ 2 < 3
  /\ RepeatUntilFail.run 3 (DecoratorNode.setChild (probe id countdown)
                              DecoratorNode.new) (2, [])
     = Done (true, (0, repeat true 2 ++ [false])).
Proof.
  assert (Htrue : forall j, j < 2 ->
                    exists wj, nth_call countdown j 2 = Done (true, wj)).
  { intros [|[|j]] Hj; [exists 1 | exists 0 | lia]; reflexivity. }
  split; [exact Htrue|]. split; [reflexivity|]. split; [lia|].
  apply (RepeatUntilFail_run_until_first_false countdown DecoratorNode.new 2 3 2 0).
  - exact Htrue.
  - reflexivity.
  - lia.
Defined.

(** ** The blackboard *)

Lemma stacks_set_stack_same (s : StackRef) (l : list Ptr) (w : World) :
  stacks (set_stack s l w) s = l.
Proof. unfold set_stack. simpl. now rewrite Nat.eqb_refl. Qed.

Lemma stacks_set_stack_other (s s' : StackRef) (l : list Ptr) (w : World) :
  s' <> s -> stacks (set_stack s l w) s' = stacks w s'.
Proof.
  intros H. unfold set_stack. simpl.
  apply Nat.eqb_neq in H. now rewrite H.
Qed.

Lemma slots_set_slot_same (v : SlotRef) (p : Ptr) (w : World) :
  slots (set_slot v p w) v = p.
Proof. unfold set_slot. simpl. now rewrite Nat.eqb_refl. Qed.

Lemma slots_set_slot_other (v v' : SlotRef) (p : Ptr) (w : World) :
  v' <> v -> slots (set_slot v p w) v' = slots w v'.
Proof.
  intros H. unfold set_slot. simpl.
  apply Nat.eqb_neq in H. now rewrite H.
Qed.

Lemma slots_set_stack (s : StackRef) (l : list Ptr) (w : World) :
  slots (set_stack s l w) = slots w.
Proof. reflexivity. Qed.

Lemma slots_print (text : string) (w : World) : slots (print text w) = slots w.
Proof. reflexivity. Qed.

Lemma stacks_print (text : string) (w : World) : stacks (print text w) = stacks w.
Proof. reflexivity. Qed.

Lemma stacks_set_slot (v : SlotRef) (p : Ptr) (w : World) :
  stacks (set_slot v p w) = stacks w.
Proof. reflexivity. Qed.

Lemma cout_set_stack (s : StackRef) (l : list Ptr) (w : World) :
  cout (set_stack s l w) = cout w.
Proof. reflexivity. Qed.

Lemma cout_set_slot (v : SlotRef) (p : Ptr) (w : World) :
  cout (set_slot v p w) = cout w.
Proof. reflexivity. Qed.

Lemma cout_print (text : string) (w : World) :
  cout (print text w) = (cout w ++ text)%string.
Proof. reflexivity. Qed.

Create Rewrite HintDb world.
#[local] Hint Rewrite slots_set_stack slots_print stacks_print stacks_set_slot
  cout_set_stack cout_set_slot cout_print
  stacks_set_stack_same slots_set_slot_same : world.

(** ** PopFromStack *)

(** On an empty stack the run fails and the world is the one it got:
    the stack, the slot and the output are untouched. *)
Lemma PopFromStack_run_empty (self : PopFromStack.t) (w : World) :
  stacks w (PopFromStack.stack self) = [] ->
  PopFromStack.run self w = Done (false, w).
Proof. intros H. unfold PopFromStack.run. rewrite H. reflexivity. Qed.

(** On a stack whose top points to a door the run succeeds: the slot
    holds the top, the stack holds the rest, one line was printed, and
    the other stacks and slots are as before. *)
Lemma PopFromStack_run_door (self : PopFromStack.t) (w : World)
  (d : Door) (rest : list Ptr) :
  stacks w (PopFromStack.stack self) = Some d :: rest ->
  exists w',
    PopFromStack.run self w = Done (true, w')
    /\ stacks w' (PopFromStack.stack self) = rest
    /\ slots w' (PopFromStack.item self) = Some d
    /\ cout w' = (cout w ++ "Trying to get through door #"
                  ++ show_int (doorNumber d) ++ "." ++ endl)%string
    /\ (forall s, s <> PopFromStack.stack self -> stacks w' s = stacks w s)
    /\ (forall v, v <> PopFromStack.item self -> slots w' v = slots w v).
Proof.
  intros H. unfold PopFromStack.run. rewrite H.
  cbn [stack_empty stack_top bind]. rewrite slots_set_slot_same.
  cbn [arrow_doorNumber bind]. rewrite stacks_print, stacks_set_slot, H.
  cbn [stack_pop bind]. eexists. split; [reflexivity|].
  repeat split; autorewrite with world; try reflexivity.
  - intros s Hs. rewrite stacks_set_stack_other by exact Hs.
    now autorewrite with world.
  - intros v Hv. now apply slots_set_slot_other.
Qed.

Example PopFromStack_run_door_3 :
  exists w',
    PopFromStack.run (PopFromStack.make 0 0)
      (set_stack 0 [Some (mkDoor 3); Some (mkDoor 2)] emptyWorld)
    = Done (true, w')
    /\ stacks w' 0 = [Some (mkDoor 2)]
    /\ slots w' 0 = Some (mkDoor 3)
    /\ cout w' = ("Trying to get through door #3." ++ endl)%string.
Proof. eexists. repeat split. Qed.

(** C4, at the input where it fails.  A stack whose top element is a
    null pointer is not empty, yet the run does not return true: the
    diagnostic reads [item->doorNumber] through the null pointer it has
    just stored. *)
Theorem PopFromStack_run_null_top :
  stack_empty (stacks (set_stack 0 [nullptr] emptyWorld) 0) = false
  /\ PopFromStack.run (PopFromStack.make 0 0) (set_stack 0 [nullptr] emptyWorld)
     = Fault.
Proof. split; reflexivity. Qed.

(** ** SetVariable *)

(** When the source slot points to a door the run succeeds: the
    destination holds the same pointer, one line was printed, the
    stacks and the other slots are as before. *)
Lemma SetVariable_run_door (self : SetVariable.t) (w : World) (d : Door) :
  slots w (SetVariable.object self) = Some d ->
  exists w',
    SetVariable.run self w = Done (true, w')
    /\ slots w' (SetVariable.variable self) = Some d
    /\ cout w' = (cout w ++ "The door that was used to get in is door #"
                  ++ show_int (doorNumber d) ++ "." ++ endl)%string
    /\ stacks w' = stacks w
    /\ (forall v, v <> SetVariable.variable self -> slots w' v = slots w v).
Proof.
  intros H. unfold SetVariable.run. rewrite slots_set_slot_same, H.
  cbn [arrow_doorNumber bind]. eexists. split; [reflexivity|].
  repeat split; autorewrite with world; try reflexivity.
  intros v Hv. now apply slots_set_slot_other.
Qed.

(** C3, at the input where it fails.  With a null pointer in the
    source slot the run copies it and then reads [variable->doorNumber]
    through it: no diagnostic is printed and no verdict is returned. *)
Theorem SetVariable_run_null_source :
  slots emptyWorld 0 = nullptr
  /\ SetVariable.run (SetVariable.make 1 0) emptyWorld = Fault.
Proof. split; reflexivity. Qed.

(** ** GetStack *)

Lemma GetStack_run_contents (self : GetStack.t) (w : World) :
  exists w',
    GetStack.run self w = Done (true, w')
    /\ stacks w' (GetStack.stack self)
       = snapshot (GetStack.object self) (stacks w (GetStack.obtainedStack self))
    /\ (forall s, s <> GetStack.stack self -> stacks w' s = stacks w s)
    /\ slots w' = slots w
    /\ cout w' = cout w.
Proof.
  unfold GetStack.run. eexists. split; [reflexivity|].
  destruct (GetStack.object self) as [d|]; cbn [snapshot].
  - repeat split.
    + now rewrite !stacks_set_stack_same.
    + intros s Hs. now rewrite !stacks_set_stack_other.
  - repeat split.
    + now rewrite stacks_set_stack_same.
    + intros s Hs. now rewrite stacks_set_stack_other.
Qed.

(** C7 as stated fails when the two references of the node name one
    stack: the assignment copies the stack onto itself, and a later push
    on the source is a push on the destination. *)
Lemma GetStack_same_stack_not_independent :
  ~ snapshot_independent (GetStack.new 0 0) emptyWorld.
Proof.
  intros H.
  specialize (H (set_stack 0 [] emptyWorld)
                (set_stack 0 [Some (mkDoor 1)] (set_stack 0 [] emptyWorld))).
  discriminate H.
  - reflexivity.
  - intros s' Hs'. now rewrite stacks_set_stack_other.
Qed.

(** C7, amended.  A GetStack whose destination and source are two
    stacks: the run returns true, the destination then holds the
    elements the source held at the call, under the bound object when it
    is not null, the source and every other stack are as before, and no
    later mutation of the source changes the destination. *)
Theorem GetStack_run_snapshot (self : GetStack.t) (w : World) :
  GetStack.stack self <> GetStack.obtainedStack self ->
  (exists w',
     GetStack.run self w = Done (true, w')
     /\ stacks w' (GetStack.stack self)
        = snapshot (GetStack.object self) (stacks w (GetStack.obtainedStack self))
     /\ stacks w' (GetStack.obtainedStack self)
        = stacks w (GetStack.obtainedStack self))
  /\ snapshot_independent self w.
Proof.
  intros Hne. split.
  - destruct (GetStack_run_contents self w) as (w' & E & Hdst & Hother & _).
    exists w'. repeat split; auto.
  - intros w' w'' _ Hmut. apply Hmut. exact Hne.
Qed.

Lemma GetStack_run_snapshot_witness :
  (exists w',
     GetStack.run (GetStack.make 0 1 (Some (mkDoor 7)))
       (set_stack 1 [Some (mkDoor 2); Some (mkDoor 1)] emptyWorld)
     = Done (true, w')
     /\ stacks w' 0 = [Some (mkDoor 7); Some (mkDoor 2); Some (mkDoor 1)]
     /\ stacks w' 1 = [Some (mkDoor 2); Some (mkDoor 1)])
  /\ snapshot_independent (GetStack.make 0 1 (Some (mkDoor 7)))
       (set_stack 1 [Some (mkDoor 2); Some (mkDoor 1)] emptyWorld).
Proof.
  apply (GetStack_run_snapshot (GetStack.make 0 1 (Some (mkDoor 7)))
           (set_stack 1 [Some (mkDoor 2); Some (mkDoor 1)] emptyWorld)).
  simpl. lia.
Defined.

(** ** RandomSelector *)

Lemma always_unique {W : Type} (c : Node W) (w : W) (r1 r2 : bool) :
  always c r1 -> always c r2 -> r1 = r2.
Proof.
  intros H1 H2. destruct (H1 w) as (w1 & E1), (H2 w) as (w2 & E2).
  congruence.
Qed.

Lemma RandomSelector_loop_fixed_verdicts {W : Type} (cs : list (Node W)) :
  (forall c, In c cs -> exists r, always c r) ->
  forall w,
  exists r w',
    RandomSelector.loop cs w = Done (r, w')
    /\ (r = true <-> exists c, In c cs /\ always c true).
Proof.
  induction cs as [|c cs IH]; intros Hfix w.
  - exists false, w. split; [reflexivity|].
    split; [discriminate | intros (c & [] & _)].
  - destruct (Hfix c (or_introl eq_refl)) as (rc & Hc).
    destruct (Hc w) as (w1 & Ec).
    cbn [RandomSelector.loop]. rewrite Ec. cbn [bind].
    destruct rc.
    + exists true, w1. split; [reflexivity|].
      split; [|reflexivity]. intros _. exists c. split; [now left | exact Hc].
    + destruct (IH (fun c' H => Hfix c' (or_intror H)) w1) as (r & w' & E & Hr).
      exists r, w'. split; [exact E|]. rewrite Hr. split.
      * intros (c' & Hin & Hc'). exists c'. split; [now right | exact Hc'].
      * intros (c' & [<- | Hin] & Hc').
        -- discriminate (always_unique c w false true Hc Hc').
        -- exists c'. now split.
Qed.

(** C9. Whenever a run of a RandomSelector returns, the object it
    leaves holds the children it held, in the same order: the shuffle
    worked on the copy.  When the shuffle permutes the vector it is
    given and each child returns one fixed verdict, the run returns,
    and its verdict is true exactly when some child returns true. *)
Theorem RandomSelector_run_keeps_children {W : Type}
  (random_shuffle : list (Node W) -> W -> list (Node W) * W)
  (self : CompositeNode.t W) (w : W) :
  (forall r self' w',
     RandomSelector.run random_shuffle self w = Done (r, (self', w')) ->
     CompositeNode.getChildren self' = CompositeNode.getChildren self)
  /\ ((forall l w0, Permutation l (fst (random_shuffle l w0))) ->
      (forall c, In c (CompositeNode.getChildren self) -> exists r, always c r) ->
      exists r w',
        RandomSelector.run random_shuffle self w = Done (r, (self, w'))
        /\ (r = true <->
            exists c, In c (CompositeNode.getChildren self) /\ always c true)).
Proof.
  unfold RandomSelector.run, CompositeNode.childrenShuffled.
  fold (CompositeNode.getChildren self). split.
  - intros r self' w'.
    destruct (random_shuffle (CompositeNode.getChildren self) w) as [temp w1].
    destruct (RandomSelector.loop temp w1) as [[r1 w2]| |]; cbn [bind];
      intros E; inversion E; reflexivity.
  - intros Hperm Hfix.
    specialize (Hperm (CompositeNode.getChildren self) w).
    destruct (random_shuffle (CompositeNode.getChildren self) w) as [temp w1].
    cbn [fst] in Hperm.
    destruct (RandomSelector_loop_fixed_verdicts temp
                (fun c H => Hfix c (Permutation_in c (Permutation_sym Hperm) H)) w1)
      as (r & w' & E & Hr).
    rewrite E. cbn [bind]. exists r, w'. split; [reflexivity|].
    rewrite Hr. split; intros (c & Hin & Hc); exists c; split; auto.
    + exact (Permutation_in c (Permutation_sym Hperm) Hin).
    + exact (Permutation_in c Hperm Hin).
Qed.

Lemma RandomSelector_run_keeps_children_witness :
  exists r w',
    RandomSelector.run reversing_shuffle
      (CompositeNode.addChildren [stub false S; stub true S] CompositeNode.new) 0
    = Done (r, (CompositeNode.addChildren [stub false S; stub true S]
                  CompositeNode.new, w'))
    /\ (r = true <->
        exists c,
          In c (CompositeNode.getChildren
                  (CompositeNode.addChildren [stub false S; stub true S]
                     CompositeNode.new))
          /\ always c true).
Proof.
  apply (proj2 (RandomSelector_run_keeps_children reversing_shuffle
                  (CompositeNode.addChildren [stub false S; stub true S]
                     CompositeNode.new) 0)).
  - intros l w0. apply Permutation_rev.
  - intros c [<- | [<- | []]]; eexists; apply stub_always.
Defined.

(** * Further properties of the engine *)

(** ** How the decorators compose *)

(** The remark in the source on Failer: an Inverter whose child is a
    Succeeder does the same, on every child and in every world, the
    calls that do not return included. *)
Theorem Failer_is_Inverter_of_Succeeder {W : Type} (c : Node W)
  (d1 d2 d3 : DecoratorNode.t W) (w : W) :
  Failer.run (DecoratorNode.setChild c d1) w
  = Inverter.run
      (DecoratorNode.setChild (Succeeder.run (DecoratorNode.setChild c d2)) d3) w.
Proof.
  unfold Failer.run, Inverter.run, Succeeder.run.
  rewrite !getChild_setChild. cbn [call].
  destruct (c w) as [[r w']| |]; reflexivity.
Qed.

(** Two Inverters on top of each other are the child itself. *)
Theorem Inverter_twice {W : Type} (c : Node W) (d1 d2 : DecoratorNode.t W) (w : W) :
  Inverter.run (DecoratorNode.setChild (Inverter.run (DecoratorNode.setChild c d1)) d2) w
  = c w.
Proof.
  unfold Inverter.run. rewrite !getChild_setChild. cbn [call].
  destruct (c w) as [[r w']| |]; cbn [bind]; [|reflexivity|reflexivity].
  now rewrite negb_involutive.
Qed.

(** ** How the composites compose *)

Lemma Selector_loop_app {W : Type} (cs1 cs2 : list (Node W)) (w : W) :
  Selector.loop (cs1 ++ cs2) w
  = '(r, w1) <- Selector.loop cs1 w ;;
    if r then Done (true, w1) else Selector.loop cs2 w1.
Proof.
  revert w. induction cs1 as [|c cs1 IH]; intros w; cbn [app Selector.loop bind].
  - reflexivity.
  - destruct (c w) as [[r w1]| |]; cbn [bind]; [|reflexivity|reflexivity].
    destruct r; [reflexivity | apply IH].
Qed.

Lemma Sequence_loop_app {W : Type} (cs1 cs2 : list (Node W)) (w : W) :
  Sequence.loop (cs1 ++ cs2) w
  = '(r, w1) <- Sequence.loop cs1 w ;;
    if r then Sequence.loop cs2 w1 else Done (false, w1).
Proof.
  revert w. induction cs1 as [|c cs1 IH]; intros w; cbn [app Sequence.loop bind].
  - reflexivity.
  - destruct (c w) as [[r w1]| |]; cbn [bind]; [|reflexivity|reflexivity].
    destruct r; cbn [negb]; [apply IH | reflexivity].
Qed.

Lemma run_addChildren_new_Selector {W : Type} (cs : list (Node W)) (w : W) :
  Selector.run (CompositeNode.addChildren cs CompositeNode.new) w
  = Selector.loop cs w.
Proof. unfold Selector.run. now rewrite getChildren_addChildren. Qed.

Lemma run_addChildren_new_Sequence {W : Type} (cs : list (Node W)) (w : W) :
  Sequence.run (CompositeNode.addChildren cs CompositeNode.new) w
  = Sequence.loop cs w.
Proof. unfold Sequence.run. now rewrite getChildren_addChildren. Qed.

(** A Selector that is the first child of a Selector can be replaced
    by its own children, spliced in at its place: the verdict and the
    world are the same, the calls that do not return included. *)
Theorem Selector_nested_first {W : Type} (inner : CompositeNode.t W)
  (rest : list (Node W)) (w : W) :
  Selector.run (CompositeNode.addChildren (Selector.run inner :: rest)
                  CompositeNode.new) w
  = Selector.run (CompositeNode.addChildren
                    (CompositeNode.getChildren inner ++ rest) CompositeNode.new) w.
Proof.
  rewrite !run_addChildren_new_Selector, Selector_loop_app.
  cbn [Selector.loop]. unfold Selector.run.
  destruct (Selector.loop (CompositeNode.getChildren inner) w) as [[r w1]| |];
    reflexivity.
Qed.

(** The same for a Sequence that is the first child of a Sequence. *)
Theorem Sequence_nested_first {W : Type} (inner : CompositeNode.t W)
  (rest : list (Node W)) (w : W) :
  Sequence.run (CompositeNode.addChildren (Sequence.run inner :: rest)
                  CompositeNode.new) w
  = Sequence.run (CompositeNode.addChildren
                    (CompositeNode.getChildren inner ++ rest) CompositeNode.new) w.
Proof.
  rewrite !run_addChildren_new_Sequence, Sequence_loop_app.
  cbn [Sequence.loop]. unfold Sequence.run.
  destruct (Sequence.loop (CompositeNode.getChildren inner) w) as [[r w1]| |];
    cbn [bind]; [|reflexivity|reflexivity].
  destruct r; reflexivity.
Qed.

Lemma Selector_loop_inverted {W : Type} (cs : list (Node W)) (w : W) :
  Sequence.loop
    (map (fun c => Inverter.run (DecoratorNode.setChild c DecoratorNode.new)) cs) w
  = '(r, w1) <- Selector.loop cs w ;; Done (negb r, w1).
Proof.
  revert w. induction cs as [|c cs IH]; intros w;
    cbn [map Sequence.loop Selector.loop bind]; [reflexivity|].
  unfold Inverter.run at 1. rewrite getChild_setChild. cbn [call].
  destruct (c w) as [[r w1]| |]; cbn [bind]; [|reflexivity|reflexivity].
  destruct r; cbn [negb bind]; [reflexivity | apply IH].
Qed.

Lemma Sequence_loop_inverted {W : Type} (cs : list (Node W)) (w : W) :
  Selector.loop
    (map (fun c => Inverter.run (DecoratorNode.setChild c DecoratorNode.new)) cs) w
  = '(r, w1) <- Sequence.loop cs w ;; Done (negb r, w1).
Proof.
  revert w. induction cs as [|c cs IH]; intros w;
    cbn [map Sequence.loop Selector.loop bind]; [reflexivity|].
  unfold Inverter.run at 1. rewrite getChild_setChild. cbn [call].
  destruct (c w) as [[r w1]| |]; cbn [bind]; [|reflexivity|reflexivity].
  destruct r; cbn [negb bind]; [apply IH | reflexivity].
Qed.

(** An Inverter over a Selector is the Sequence of the inverted
    children, and an Inverter over a Sequence is the Selector of the
    inverted children: same verdict, same world, same calls. *)
Theorem Inverter_of_composite {W : Type} (self : CompositeNode.t W)
  (d : DecoratorNode.t W) (w : W) :
  Inverter.run (DecoratorNode.setChild (Selector.run self) d) w
  = Sequence.run
      (CompositeNode.addChildren
         (map (fun c => Inverter.run (DecoratorNode.setChild c DecoratorNode.new))
              (CompositeNode.getChildren self))
         CompositeNode.new) w
  /\ Inverter.run (DecoratorNode.setChild (Sequence.run self) d) w
     = Selector.run
         (CompositeNode.addChildren
            (map (fun c => Inverter.run (DecoratorNode.setChild c DecoratorNode.new))
                 (CompositeNode.getChildren self))
            CompositeNode.new) w.
Proof.
  split.
  - rewrite run_addChildren_new_Sequence, Selector_loop_inverted.
    unfold Inverter.run. rewrite getChild_setChild. reflexivity.
  - rewrite run_addChildren_new_Selector, Sequence_loop_inverted.
    unfold Inverter.run. rewrite getChild_setChild. reflexivity.
Qed.

(** [addChildren] appends: the children already there stay in front in
    their order, the new ones follow in the order given; adding in two
    steps is adding the concatenation, and [addChild] adds one. *)
Theorem CompositeNode_addChildren_appends {W : Type} (l1 l2 : list (Node W))
  (c : Node W) (self : CompositeNode.t W) :
  CompositeNode.getChildren (CompositeNode.addChildren l1 self)
  = CompositeNode.getChildren self ++ l1
  /\ CompositeNode.addChildren l2 (CompositeNode.addChildren l1 self)
     = CompositeNode.addChildren (l1 ++ l2) self
  /\ CompositeNode.getChildren (CompositeNode.addChild c self)
     = CompositeNode.getChildren self ++ [c].
Proof.
  split; [apply getChildren_addChildren|]. split; [|reflexivity].
  unfold CompositeNode.addChildren. now rewrite fold_left_app.
Qed.

(** ** Loops that do not end, and counts that are not positive *)

Lemma Repeater_forever_never_Done {W : Type} (self : Repeater.t W) :
  forall (fuel : nat) (w : W) (a : bool * W),
    Repeater.forever fuel self w <> Done a.
Proof.
  induction fuel as [|fuel IH]; intros w a; cbn [Repeater.forever].
  - discriminate.
  - destruct (call (Repeater.getChild self) w) as [[r w1]| |]; cbn [bind];
      [apply IH | discriminate | discriminate].
Qed.

Lemma Repeater_forever_total_child {W : Type} (self : Repeater.t W) (c : Node W) :
  Repeater.getChild self = Some c -> total c ->
  forall (fuel : nat) (w : W), Repeater.forever fuel self w = Timeout.
Proof.
  intros Hc Htot. induction fuel as [|fuel IH]; intros w; cbn [Repeater.forever].
  - reflexivity.
  - rewrite Hc. cbn [call]. destruct (Htot w) as (r & w1 & E).
    rewrite E. cbn [bind]. apply IH.
Qed.

(** A Repeater whose count is the sentinel [NOT_FOUND] (every Repeater
    built without a count) never returns: no loop budget makes its run
    end with a verdict, and over a child that always returns the run
    uses up every budget. *)
Theorem Repeater_run_unbounded {W : Type} (self : Repeater.t W) :
  Repeater.numRepeats self = Repeater.NOT_FOUND ->
  (forall fuel w a, Repeater.run fuel self w <> Done a)
  /\ (forall c, Repeater.getChild self = Some c -> total c ->
      forall fuel w, Repeater.run fuel self w = Timeout).
Proof.
  intros Hnum. unfold Repeater.run. rewrite Hnum, Z.eqb_refl. split.
  - intros fuel w a. apply Repeater_forever_never_Done.
  - intros c Hc Htot fuel w. now apply Repeater_forever_total_child with c.
Qed.

Lemma Repeater_run_unbounded_witness :
  Repeater.run 4 (Repeater.setChild (stub true S) (Repeater.new (-1))) 0
  <> Done (true, 4)
  /\ Repeater.run 4 (Repeater.setChild (stub true S) (Repeater.new (-1))) 0
     = Timeout.
Proof.
  destruct (Repeater_run_unbounded
              (Repeater.setChild (stub true S) (Repeater.new (-1))) eq_refl)
    as [Hnever Hendless].
  split; [apply Hnever|].
  apply (Hendless (stub true S)); [reflexivity | apply stub_total].
Defined.

(** A Repeater whose count is at most 1 and is not the sentinel, so 1,
    0 or a negative count from -2 down: the counted loop does no round
    and the child is called exactly once, its verdict returned.  At the
    least [int] the bound [numRepeats - 1] overflows. *)
Theorem Repeater_run_count_at_most_1 {W : Type} (c : Node W) (num : Z)
  (fuel : nat) (w w' : W) (r : bool) :
  (INT_MIN < num <= 1)%Z ->
  num <> Repeater.NOT_FOUND ->
  c w = Done (r, w') ->
  0 < fuel ->
  Repeater.run fuel (Repeater.setChild (probe id c) (Repeater.new num)) (w, [])
  = Done (r, (w', [r]))
  /\ Repeater.run fuel (Repeater.setChild (probe id c) (Repeater.new INT_MIN)) (w, [])
     = Fault.
Proof.
  intros Hnum Hne Ec Hfuel. destruct fuel as [|fuel]; [lia|].
  unfold Repeater.run. rewrite !Repeater_numRepeats_setChild. split.
  - replace (num =? Repeater.NOT_FOUND)%Z with false
      by (symmetry; now apply Z.eqb_neq).
    cbn [Repeater.for_loop]. rewrite Repeater_numRepeats_setChild.
    unfold int_sub. rewrite int_of_in_range by (unfold INT_MIN, INT_MAX in *; lia).
    cbn [bind].
    replace (0 <? num - 1)%Z with false by (symmetry; apply Z.ltb_ge; lia).
    cbn [bind]. rewrite Repeater_getChild_setChild. cbn [call].
    erewrite probe_Done by exact Ec. reflexivity.
  - reflexivity.
Qed.

Lemma Repeater_run_count_at_most_1_witness :
  Repeater.run 1 (Repeater.setChild (probe id (stub false S)) (Repeater.new (-7)))
    (0, [])
  = Done (false, (1, [false]))
  /\ Repeater.run 1 (Repeater.setChild (probe id (stub false S))
                       (Repeater.new INT_MIN)) (0, [])
     = Fault.
Proof.
  apply (Repeater_run_count_at_most_1 (stub false S) (-7) 1 0 1 false).
  - unfold INT_MIN. lia.
  - unfold Repeater.NOT_FOUND. lia.
  - reflexivity.
  - lia.
Defined.

Lemma RepeatUntilFail_while_always_true {W : Type} (c : Node W)
  (d : DecoratorNode.t W) :
  always c true ->
  forall (fuel : nat) (w : W),
    RepeatUntilFail.while fuel (DecoratorNode.setChild c d) w = Timeout.
Proof.
  intros Hc. induction fuel as [|fuel IH]; intros w; cbn [RepeatUntilFail.while].
  - reflexivity.
  - rewrite getChild_setChild. cbn [call]. destruct (Hc w) as (w1 & E).
    rewrite E. cbn [bind]. apply IH.
Qed.

(** RepeatUntilFail never returns false, whatever its child does, and
    over a child that returns true in every world it never returns at
    all: the run uses up every loop budget. *)
Theorem RepeatUntilFail_run_true_or_endless {W : Type} (c : Node W)
  (d : DecoratorNode.t W) :
  (forall fuel w r w',
     RepeatUntilFail.run fuel (DecoratorNode.setChild c d) w = Done (r, w') ->
     r = true)
  /\ (always c true ->
      forall fuel w,
        RepeatUntilFail.run fuel (DecoratorNode.setChild c d) w = Timeout).
Proof.
  split.
  - intros fuel w r w'. unfold RepeatUntilFail.run.
    destruct (RepeatUntilFail.while fuel (DecoratorNode.setChild c d) w);
      cbn [bind]; congruence.
  - intros Hc fuel w. unfold RepeatUntilFail.run.
    now rewrite RepeatUntilFail_while_always_true.
Qed.

Lemma RepeatUntilFail_run_true_or_endless_witness :
  RepeatUntilFail.run 5 (DecoratorNode.setChild (stub true S) DecoratorNode.new) 0
  = Timeout.
Proof.
  apply (proj2 (RepeatUntilFail_run_true_or_endless (stub true S)
                  DecoratorNode.new)).
  apply stub_always.
Defined.

(** A decorator whose child was never set: every [run] goes through
    the unset pointer.  So do the run of a tree whose root child was
    never set, and, once a loop budget is there, the runs of
    RepeatUntilFail and of a Repeater of any count. *)
Theorem decorator_without_child_faults {W : Type} (w : W) :
  Root.run DecoratorNode.new w = Fault
  /\ Inverter.run DecoratorNode.new w = Fault
  /\ Succeeder.run DecoratorNode.new w = Fault
  /\ Failer.run DecoratorNode.new w = Fault
  /\ BehaviourTree.run BehaviourTree.new w = Fault
  /\ (forall fuel, 0 < fuel ->
      RepeatUntilFail.run fuel DecoratorNode.new w = Fault
      /\ forall num, Repeater.run fuel (Repeater.new num) w = Fault).
Proof.
  repeat (split; [reflexivity|]).
  intros [|fuel] Hfuel; [lia|]. split; [reflexivity|].
  intros num. unfold Repeater.run. cbn [Repeater.new Repeater.numRepeats].
  destruct (num =? Repeater.NOT_FOUND)%Z; [reflexivity|].
  cbn [Repeater.for_loop Repeater.new Repeater.numRepeats].
  unfold int_sub, int_of. destruct (in_int (num - 1)); cbn [bind]; [|reflexivity].
  destruct (0 <? num - 1)%Z; reflexivity.
Qed.

Lemma decorator_without_child_faults_witness :
  RepeatUntilFail.run 1 DecoratorNode.new 0 = Fault
  /\ Repeater.run 1 (Repeater.new 3) 0 = Fault.
Proof.
  destruct (proj2 (proj2 (proj2 (proj2 (proj2
              (decorator_without_child_faults 0))))) 1) as [Huntil Hrepeat].
  - lia.
  - split; [exact Huntil | apply Hrepeat].
Defined.

(** ** How the leaves compose *)

(** PushToStack and then PopFromStack on the same stack, in a Sequence,
    when the slot pushed from points to a door: the Sequence succeeds,
    every stack holds what it held, and the slot popped into holds the
    pointer that was pushed; the other slots are as before. *)
Theorem PushToStack_then_PopFromStack (push : PushToStack.t)
  (pop : PopFromStack.t) (w : World) (d : Door) :
  PushToStack.stack push = PopFromStack.stack pop ->
  slots w (PushToStack.item push) = Some d ->
  exists w',
    Sequence.run (CompositeNode.addChildren
                    [PushToStack.run push; PopFromStack.run pop]
                    CompositeNode.new) w
    = Done (true, w')
    /\ (forall s, stacks w' s = stacks w s)
    /\ slots w' (PopFromStack.item pop) = Some d
    /\ (forall v, v <> PopFromStack.item pop -> slots w' v = slots w v).
Proof.
  intros Hs Hd. rewrite run_addChildren_new_Sequence.
  cbn [Sequence.loop]. unfold PushToStack.run at 1. cbn [bind negb].
  rewrite Hs, Hd.
  destruct (PopFromStack_run_door pop
              (set_stack (PopFromStack.stack pop)
                 (stack_push (Some d) (stacks w (PopFromStack.stack pop))) w)
              d (stacks w (PopFromStack.stack pop)))
    as (w' & E & Hst & Hsl & _ & Hother & Hslots).
  { apply stacks_set_stack_same. }
  rewrite E. cbn [bind negb]. exists w'. split; [reflexivity|].
  split; [|split].
  - intros s. destruct (Nat.eq_dec s (PopFromStack.stack pop)) as [->|Hne].
    + exact Hst.
    + rewrite (Hother s Hne). now apply stacks_set_stack_other.
  - exact Hsl.
  - intros v Hv. now rewrite (Hslots v Hv).
Qed.

Lemma PushToStack_then_PopFromStack_witness :
  exists w',
    Sequence.run (CompositeNode.addChildren
                    [PushToStack.run (PushToStack.make 0 0);
                     PopFromStack.run (PopFromStack.make 1 0)]
                    CompositeNode.new)
      (set_slot 0 (Some (mkDoor 4)) emptyWorld)
    = Done (true, w')
    /\ (forall s, stacks w' s = stacks (set_slot 0 (Some (mkDoor 4)) emptyWorld) s)
    /\ slots w' 1 = Some (mkDoor 4)
    /\ (forall v, v <> 1 ->
        slots w' v = slots (set_slot 0 (Some (mkDoor 4)) emptyWorld) v).
Proof.
  apply (PushToStack_then_PopFromStack (PushToStack.make 0 0)
           (PopFromStack.make 1 0) (set_slot 0 (Some (mkDoor 4)) emptyWorld)
           (mkDoor 4)); reflexivity.
Defined.

(** PushToStack pushes whatever its slot holds, a null pointer too,
    and succeeds; a PopFromStack that follows on the same stack then
    reads through that null pointer. *)
Theorem PushToStack_null_then_PopFromStack (push : PushToStack.t)
  (pop : PopFromStack.t) (w : World) :
  PushToStack.stack push = PopFromStack.stack pop ->
  slots w (PushToStack.item push) = nullptr ->
  (exists w1,
     PushToStack.run push w = Done (true, w1)
     /\ stacks w1 (PushToStack.stack push)
        = nullptr :: stacks w (PushToStack.stack push))
  /\ Sequence.run (CompositeNode.addChildren
                     [PushToStack.run push; PopFromStack.run pop]
                     CompositeNode.new) w
     = Fault.
Proof.
  intros Hs Hnull. split.
  - eexists. split; [reflexivity|]. rewrite stacks_set_stack_same, Hnull.
    reflexivity.
  - rewrite run_addChildren_new_Sequence.
    cbn [Sequence.loop]. unfold PushToStack.run at 1. cbn [bind negb].
    rewrite Hs, Hnull. unfold PopFromStack.run.
    rewrite stacks_set_stack_same. cbn [stack_push stack_empty stack_top bind].
    rewrite slots_set_slot_same. reflexivity.
Qed.

Lemma PushToStack_null_then_PopFromStack_witness :
  (exists w1,
     PushToStack.run (PushToStack.make 0 0) emptyWorld = Done (true, w1)
     /\ stacks w1 0 = nullptr :: stacks emptyWorld 0)
  /\ Sequence.run (CompositeNode.addChildren
                     [PushToStack.run (PushToStack.make 0 0);
                      PopFromStack.run (PopFromStack.make 1 0)]
                     CompositeNode.new) emptyWorld
     = Fault.
Proof.
  apply (PushToStack_null_then_PopFromStack (PushToStack.make 0 0)
           (PopFromStack.make 1 0) emptyWorld); reflexivity.
Defined.

(** StackIsEmpty changes nothing, and it succeeds exactly when a
    PopFromStack on the same stack fails. *)
Theorem StackIsEmpty_iff_PopFromStack_fails (probe_node : StackIsEmpty.t)
  (pop : PopFromStack.t) (w : World) :
  StackIsEmpty.stack probe_node = PopFromStack.stack pop ->
  (exists r, StackIsEmpty.run probe_node w = Done (r, w))
  /\ (StackIsEmpty.run probe_node w = Done (true, w)
      <-> PopFromStack.run pop w = Done (false, w)).
Proof.
  intros Hs. unfold StackIsEmpty.run. rewrite Hs. split; [eexists; reflexivity|].
  unfold PopFromStack.run.
  destruct (stacks w (PopFromStack.stack pop)) as [|p rest] eqn:E;
    cbn [stack_empty stack_top bind].
  - split; reflexivity.
  - split; [discriminate|].
    rewrite slots_set_slot_same.
    destruct p as [d|]; cbn [arrow_doorNumber bind]; [|discriminate].
    rewrite stacks_print, stacks_set_slot, E. cbn [stack_pop bind].
    discriminate.
Qed.

Lemma StackIsEmpty_iff_PopFromStack_fails_witness :
  (exists r, StackIsEmpty.run (StackIsEmpty.make 0) emptyWorld
             = Done (r, emptyWorld))
  /\ (StackIsEmpty.run (StackIsEmpty.make 0) emptyWorld = Done (true, emptyWorld)
      <-> PopFromStack.run (PopFromStack.make 0 0) emptyWorld
          = Done (false, emptyWorld)).
Proof.
  apply (StackIsEmpty_iff_PopFromStack_fails (StackIsEmpty.make 0)
           (PopFromStack.make 0 0) emptyWorld).
  reflexivity.
Defined.

(** Whenever SetVariable returns, it returns true, its destination
    holds the pointer of its source, which is not null, and an IsNull on
    the destination fails from then on, changing nothing. *)
Theorem SetVariable_then_IsNull (self : SetVariable.t) (w w' : World) (r : bool) :
  SetVariable.run self w = Done (r, w') ->
  r = true
  /\ slots w' (SetVariable.variable self) = slots w (SetVariable.object self)
  /\ slots w' (SetVariable.variable self) <> nullptr
  /\ IsNull.run (IsNull.make (SetVariable.variable self)) w' = Done (false, w').
Proof.
  unfold SetVariable.run. rewrite slots_set_slot_same.
  destruct (slots w (SetVariable.object self)) as [d|] eqn:E;
    cbn [arrow_doorNumber bind]; [|discriminate].
  intros H. inversion H; subst. unfold IsNull.run. cbn [IsNull.object].
  rewrite slots_print, slots_set_slot_same.
  repeat split. discriminate.
Qed.

Lemma SetVariable_then_IsNull_witness :
  exists w',
    SetVariable.run (SetVariable.make 1 0) (set_slot 0 (Some (mkDoor 3)) emptyWorld)
    = Done (true, w')
    /\ slots w' 1 = Some (mkDoor 3)
    /\ IsNull.run (IsNull.make 1) w' = Done (false, w').
Proof.
  eexists. split; [reflexivity|].
  destruct (SetVariable_then_IsNull (SetVariable.make 1 0)
              (set_slot 0 (Some (mkDoor 3)) emptyWorld) _ true eq_refl)
    as (_ & Hslot & _ & Hnull).
  split; [exact Hslot | exact Hnull].
Defined.

Lemma last_cons_default {A : Type} (l : list A) (a x : A) :
  last (a :: l) x = last l a.
Proof.
  revert a x. induction l as [|b l IH]; intros a x; [reflexivity|].
  change (last (a :: b :: l) x) with (last (b :: l) x).
  now rewrite (IH b x), (IH b a).
Qed.

Lemma RepeatUntilFail_while_PopFromStack (pop : PopFromStack.t)
  (d : DecoratorNode.t World) :
  forall (ds : list Door) (fuel : nat) (w : World),
    stacks w (PopFromStack.stack pop) = map Some ds ->
    List.length ds < fuel ->
    exists w',
      RepeatUntilFail.while fuel
        (DecoratorNode.setChild (PopFromStack.run pop) d) w
      = Done w'
      /\ stacks w' (PopFromStack.stack pop) = []
      /\ slots w' (PopFromStack.item pop)
         = last (map Some ds) (slots w (PopFromStack.item pop))
      /\ (forall s, s <> PopFromStack.stack pop -> stacks w' s = stacks w s)
      /\ (forall v, v <> PopFromStack.item pop -> slots w' v = slots w v).
Proof.
  induction ds as [|d0 ds IH]; intros fuel w Hst Hfuel;
    (destruct fuel as [|fuel]; [cbn [List.length] in Hfuel; lia|]);
    cbn [RepeatUntilFail.while]; rewrite getChild_setChild; cbn [call].
  - rewrite (PopFromStack_run_empty pop w Hst). cbn [bind].
    exists w. repeat split; auto.
  - destruct (PopFromStack_run_door pop w d0 (map Some ds) Hst)
      as (w1 & E & Hst1 & Hsl1 & _ & Hother1 & Hslots1).
    rewrite E. cbn [bind].
    destruct (IH fuel w1 Hst1) as (w' & E' & Hst' & Hsl' & Hother' & Hslots').
    { cbn [List.length] in Hfuel. lia. }
    exists w'. split; [exact E'|]. split; [exact Hst'|]. split; [|split].
    + rewrite Hsl', Hsl1. cbn [map]. now rewrite last_cons_default.
    + intros s Hs. now rewrite (Hother' s Hs), (Hother1 s Hs).
    + intros v Hv. now rewrite (Hslots' v Hv), (Hslots1 v Hv).
Qed.

(** RepeatUntilFail over a PopFromStack, on a stack of pointers to
    doors and with a loop budget above its size: the run returns true,
    the stack is empty, the slot holds the element that was at the
    bottom (what it held before, when the stack was empty), and the
    other stacks and slots are as before. *)
Theorem RepeatUntilFail_PopFromStack_drains (pop : PopFromStack.t)
  (d : DecoratorNode.t World) (ds : list Door) (fuel : nat) (w : World) :
  stacks w (PopFromStack.stack pop) = map Some ds ->
  List.length ds < fuel ->
  exists w',
    RepeatUntilFail.run fuel (DecoratorNode.setChild (PopFromStack.run pop) d) w
    = Done (true, w')
    /\ stacks w' (PopFromStack.stack pop) = []
    /\ slots w' (PopFromStack.item pop)
       = last (map Some ds) (slots w (PopFromStack.item pop))
    /\ (forall s, s <> PopFromStack.stack pop -> stacks w' s = stacks w s)
    /\ (forall v, v <> PopFromStack.item pop -> slots w' v = slots w v).
Proof.
  intros Hst Hfuel.
  destruct (RepeatUntilFail_while_PopFromStack pop d ds fuel w Hst Hfuel)
    as (w' & E & H).
  exists w'. unfold RepeatUntilFail.run. rewrite E. split; [reflexivity | exact H].
Qed.

Lemma RepeatUntilFail_PopFromStack_drains_witness :
  exists w',
    RepeatUntilFail.run 3
      (DecoratorNode.setChild (PopFromStack.run (PopFromStack.make 0 0))
         DecoratorNode.new)
      (set_stack 0 (map Some [mkDoor 1; mkDoor 2]) emptyWorld)
    = Done (true, w')
    /\ stacks w' 0 = []
    /\ slots w' 0 = Some (mkDoor 2).
Proof.
  destruct (RepeatUntilFail_PopFromStack_drains (PopFromStack.make 0 0)
              DecoratorNode.new [mkDoor 1; mkDoor 2] 3
              (set_stack 0 (map Some [mkDoor 1; mkDoor 2]) emptyWorld))
    as (w' & E & Hst & Hsl & _).
  - reflexivity.
  - simpl. lia.
  - exists w'. split; [exact E|]. split; [exact Hst | exact Hsl].
Defined.

(** ** The test program *)

Lemma Building_loop_rounds (numDoors : Z) :
  (numDoors <= INT_MAX)%Z ->
  forall (k fuel : nat) (i : Z) (doors : list Ptr),
    (0 <= i)%Z -> (i + Z.of_nat k = Z.max numDoors i)%Z -> k < fuel ->
    Building.initializeBuilding_loop fuel numDoors i doors
    = Done (map door (seq 1 k) ++ doors).
Proof.
  intros Hmax. induction k as [|k IH]; intros fuel i doors Hi Hk Hfuel;
    (destruct fuel as [|fuel]; [lia|]); cbn [Building.initializeBuilding_loop].
  - replace (i <? numDoors)%Z with false by (symmetry; apply Z.ltb_ge; lia).
    reflexivity.
  - replace (i <? numDoors)%Z with true by (symmetry; apply Z.ltb_lt; lia).
    unfold int_sub, int_add.
    rewrite !int_of_in_range by (unfold INT_MIN, INT_MAX in *; lia).
    cbn [bind]. rewrite (IH fuel (i + 1)%Z) by lia.
    rewrite seq_S, map_app, <- app_assoc. cbn [map app stack_push]. unfold door.
    unfold stack_push. replace (numDoors - i)%Z with (Z.of_nat (1 + k)) by lia.
    reflexivity.
Qed.

Lemma Building_new_Done (fuel : nat) (numDoors : Z) :
  (numDoors <= INT_MAX)%Z ->
  Z.to_nat numDoors < fuel ->
  Building.new fuel numDoors
  = Done (Building.make (map door (seq 1 (Z.to_nat numDoors)))).
Proof.
  intros Hmax Hfuel. unfold Building.new, Building.initializeBuilding.
  cbn [Building.doors].
  rewrite (Building_loop_rounds numDoors Hmax (Z.to_nat numDoors) fuel 0 [])
    by lia.
  cbn [bind]. now rewrite app_nil_r.
Qed.

(** A Building with [numDoors] doors, given a loop budget above that
    number: its stack holds, from the top down, the doors numbered 1, 2,
    ... up to [numDoors], and no door at all when [numDoors] is zero or
    negative. *)
Theorem Building_new_doors (fuel : nat) (numDoors : Z) :
  (numDoors <= INT_MAX)%Z ->
  Z.to_nat numDoors < fuel ->
  Building.new fuel numDoors
  = Done (Building.make (map door (seq 1 (Z.to_nat numDoors)))).
Proof. exact (Building_new_Done fuel numDoors). Qed.

Lemma Building_new_doors_witness :
  Building.new 4 3 = Done (Building.make [door 1; door 2; door 3]).
Proof.
  apply (Building_new_doors 4 3).
  - unfold INT_MAX. lia.
  - simpl. lia.
Defined.

(** A DoorAction draws one number and prints one line; the stacks and
    the slots are untouched.  It succeeds exactly when the number drawn,
    reduced by [% 100], is below its probability: so, the draws of
    [rand] being non-negative, always when the probability is 100 or
    more and never when it is 0 or less. *)
Theorem DoorAction_run_draw {R : Type} (rand : R -> Z * R) (self : DoorAction.t)
  (w : World) (g : R) :
  (0 <= fst (rand g))%Z ->
  exists r w',
    DoorAction.run rand self (w, g) = Done (r, (w', snd (rand g)))
    /\ stacks w' = stacks w /\ slots w' = slots w
    /\ cout w' = (cout w ++ DoorAction.name self
                  ++ (if r then " succeeded." else " failed.") ++ endl)%string
    /\ (r = true <->
        (Z.rem (fst (rand g)) 100 < DoorAction.probabilityOfSuccess self)%Z)
    /\ ((100 <= DoorAction.probabilityOfSuccess self)%Z -> r = true)
    /\ ((DoorAction.probabilityOfSuccess self <= 0)%Z -> r = false).
Proof.
  intros Hpos. unfold DoorAction.run.
  destruct (rand g) as [x g1]. cbn [fst snd] in *.
  assert (Hrem : (0 <= Z.rem x 100 < 100)%Z) by (apply Z.rem_bound_pos; lia).
  destruct (Z.rem x 100 <? DoorAction.probabilityOfSuccess self)%Z eqn:E.
  - apply Z.ltb_lt in E. eexists true, _. split; [reflexivity|].
    repeat split; auto. lia.
  - apply Z.ltb_ge in E. eexists false, _. split; [reflexivity|].
    repeat split; auto; try discriminate; lia.
Qed.

Lemma DoorAction_run_draw_witness :
  exists r w',
    DoorAction.run counting_rand closeDoor (emptyWorld, 250%Z)
    = Done (r, (w', snd (counting_rand 250%Z)))
    /\ cout w' = (cout emptyWorld ++ DoorAction.name closeDoor
                  ++ (if r then " succeeded." else " failed.") ++ endl)%string
    /\ r = true.
Proof.
  destruct (DoorAction_run_draw counting_rand closeDoor emptyWorld 250%Z)
    as (r & w' & E & _ & _ & Hout & _ & Hsure & _).
  - simpl. lia.
  - exists r, w'. split; [exact E|]. split; [exact Hout|].
    apply Hsure. simpl. lia.
Defined.

(** ** The tree of [main] *)

Section MainTree.

Variable R : Type.
Variable rand : R -> Z * R.

Lemma DoorAction_keeps_board (a : DoorAction.t) :
  keeps_board (DoorAction.run rand a).
Proof.
  intros w g. unfold DoorAction.run. destruct (rand g) as [x g1].
  destruct (Z.rem x 100 <? DoorAction.probabilityOfSuccess a)%Z;
    eexists _, _, _; repeat split.
Qed.

Lemma Selector_loop_keeps_board (cs : list (Node (World * R))) :
  Forall keeps_board cs -> keeps_board (Selector.loop cs).
Proof.
  induction 1 as [|c cs Hc _ IH]; intros w g.
  - exists false, w, g. repeat split.
  - cbn [Selector.loop]. destruct (Hc w g) as (r & w1 & g1 & E & Hst & Hsl).
    rewrite E. cbn [bind]. destruct r.
    + exists true, w1, g1. repeat split; assumption.
    + destruct (IH w1 g1) as (r & w2 & g2 & E2 & Hst2 & Hsl2).
      exists r, w2, g2. repeat split; congruence.
Qed.

Lemma Succeeder_keeps_board (c : Node (World * R)) (d : DecoratorNode.t (World * R)) :
  keeps_board c -> keeps_board (Succeeder.run (DecoratorNode.setChild c d)).
Proof.
  intros Hc w g. unfold Succeeder.run. rewrite getChild_setChild. cbn [call].
  destruct (Hc w g) as (r & w1 & g1 & E & Hst & Hsl). rewrite E.
  exists true, w1, g1. repeat split; assumption.
Qed.

(** A Sequence that starts with children that keep the board either
    stops among them with false, or goes on with the rest on the same
    board. *)
Lemma Sequence_loop_keeps_prefix (cs rest : list (Node (World * R))) :
  Forall keeps_board cs ->
  forall w g, exists w1 g1,
    stacks w1 = stacks w /\ slots w1 = slots w
    /\ (Sequence.loop (cs ++ rest) (w, g) = Done (false, (w1, g1))
        \/ Sequence.loop (cs ++ rest) (w, g) = Sequence.loop rest (w1, g1)).
Proof.
  induction 1 as [|c cs Hc _ IH]; intros w g.
  - exists w, g. repeat split. now right.
  - cbn [app Sequence.loop]. destruct (Hc w g) as (r & w1 & g1 & E & Hst & Hsl).
    rewrite E. cbn [bind]. destruct r; cbn [negb].
    + destruct (IH w1 g1) as (w2 & g2 & Hst2 & Hsl2 & Hor).
      exists w2, g2. repeat split; congruence.
    + exists w1, g1. repeat split; auto.
Qed.

Lemma sequence2_run (w : World) (g : R) (d : Door) :
  slots w data_currentDoor = Some d ->
  exists r w' g',
    Sequence.run (sequence2 rand) (w, g) = Done (r, (w', g'))
    /\ stacks w' = stacks w
    /\ slots w' data_usedDoor = (if r then Some d else slots w data_usedDoor).
Proof.
  intros Hcur. unfold sequence2. rewrite run_addChildren_new_Sequence.
  destruct (Sequence_loop_keeps_prefix
              [DoorAction.run rand walkToDoor; Selector.run (selector rand);
               DoorAction.run rand walkThroughDoor; Succeeder.run (succeeder rand)]
              [on_data (SetVariable.run setVariable)]) with (w := w) (g := g)
    as (w1 & g1 & Hst & Hsl & [E | E]).
  { repeat constructor; try apply DoorAction_keeps_board.
    - unfold Selector.run, selector. rewrite getChildren_addChildren.
      apply Selector_loop_keeps_board.
      repeat constructor; apply DoorAction_keeps_board.
    - apply Succeeder_keeps_board, DoorAction_keeps_board. }
  - exists false, w1, g1. split; [exact E|]. split; [exact Hst|]. now rewrite Hsl.
  - cbn [app] in E. rewrite E. cbn [Sequence.loop on_data].
    destruct (SetVariable_run_door setVariable w1 d)
      as (w2 & E2 & Hvar & _ & Hst2 & _).
    { rewrite Hsl. exact Hcur. }
    rewrite E2. cbn [bind negb]. exists true, w2, g1.
    split; [reflexivity|]. split; [congruence | exact Hvar].
Qed.

Lemma untilFail_while :
  forall (ds : list Door) (fuel : nat) (w : World) (g : R),
    stacks w data_doors = map Some ds ->
    slots w data_usedDoor = nullptr ->
    List.length ds < fuel ->
    exists w' g',
      RepeatUntilFail.while fuel (untilFail rand) (w, g) = Done (w', g')
      /\ (forall s, s <> data_doors -> stacks w' s = stacks w s)
      /\ ((slots w' data_usedDoor = nullptr /\ stacks w' data_doors = [])
          \/ exists d, In d ds /\ slots w' data_usedDoor = Some d).
Proof.
  induction ds as [|d ds IH]; intros fuel w g Hst Hused Hfuel;
    (destruct fuel as [|fuel]; [cbn [List.length] in Hfuel; lia|]);
    cbn [RepeatUntilFail.while]; unfold untilFail at 1;
    rewrite getChild_setChild; cbn [call];
    unfold sequence1; rewrite run_addChildren_new_Sequence;
    cbn [Sequence.loop on_data].
  - rewrite (PopFromStack_run_empty popFromStack w Hst). cbn [bind negb].
    exists w, g. split; [reflexivity|]. split; [reflexivity|]. left. now split.
  - destruct (PopFromStack_run_door popFromStack w d (map Some ds) Hst)
      as (w1 & E1 & Hst1 & Hsl1 & _ & Hother1 & Hslots1).
    rewrite E1. cbn [bind negb].
    unfold Inverter.run, inverter1. rewrite getChild_setChild. cbn [call].
    destruct (sequence2_run w1 g d Hsl1) as (r & w2 & g2 & E2 & Hst2 & Hused2).
    rewrite E2. cbn [bind]. destruct r; cbn [negb].
    + exists w2, g2. split; [reflexivity|]. split.
      * intros s Hs. rewrite Hst2. now apply Hother1.
      * right. exists d. split; [now left | exact Hused2].
    + destruct (IH fuel w2 g2) as (w' & g' & E' & Hother' & Hor).
      * rewrite Hst2. exact Hst1.
      * rewrite Hused2. rewrite Hslots1 by discriminate. exact Hused.
      * cbn [List.length] in Hfuel. lia.
      * exists w', g'. split; [exact E'|]. split.
        -- intros s Hs. rewrite (Hother' s Hs), Hst2. now apply Hother1.
        -- destruct Hor as [Hnone | (d' & Hin & Hd')]; [now left|].
           right. exists d'. split; [now right | exact Hd'].
Qed.

End MainTree.

Lemma behaviorTree_run_Done {R : Type} (rand : R -> Z * R)
  (fuel : nat) (ds : list Door) (w : World) (g : R) :
  stacks w building_doors = map Some ds ->
  slots w data_usedDoor = nullptr ->
  List.length ds < fuel ->
  exists r w' g',
    BehaviourTree.run (behaviorTree rand fuel) (w, g) = Done (r, (w', g'))
    /\ stacks w' building_doors = stacks w building_doors
    /\ (r = true <-> exists d, In d ds /\ slots w' data_usedDoor = Some d)
    /\ (r = false -> slots w' data_usedDoor = nullptr /\ stacks w' data_doors = []).
Proof.
  intros Hst Hused Hfuel.
  unfold BehaviourTree.run, behaviorTree, BehaviourTree.setRootChild, Root.run.
  cbn [BehaviourTree.root]. rewrite getChild_setChild. cbn [call].
  unfold sequence0. rewrite run_addChildren_new_Sequence.
  cbn [Sequence.loop on_data].
  destruct (GetStack_run_contents getDoorStackFromBuilding w)
    as (w1 & E1 & Hdst & Hother1 & Hsl1 & _).
  rewrite E1. cbn [bind negb]. unfold RepeatUntilFail.run.
  destruct (untilFail_while R rand ds fuel w1 g)
    as (w2 & g2 & E2 & Hother2 & Hor); [| |exact Hfuel|].
  { etransitivity; [exact Hdst | exact Hst]. }
  { now rewrite Hsl1. }
  rewrite E2. cbn [bind negb].
  unfold Inverter.run, inverter0. rewrite getChild_setChild. cbn [call on_data].
  unfold IsNull.run. cbn [isNull IsNull.object bind].
  assert (Hb : stacks w2 building_doors = stacks w building_doors).
  { rewrite Hother2 by discriminate. apply Hother1. discriminate. }
  destruct Hor as [[Hnone Hempty] | (d & Hin & Hd)].
  - rewrite Hnone. exists false, w2, g2. split; [reflexivity|].
    split; [exact Hb|]. split; [|now split].
    split; [discriminate|]. intros (d & _ & Hd). rewrite Hnone in Hd.
    discriminate.
  - rewrite Hd. exists true, w2, g2. split; [reflexivity|].
    split; [exact Hb|]. split; [|discriminate].
    split; [|reflexivity]. intros _. now exists d.
Qed.

(** The tree that [main] wires, run on a blackboard where the stack of
    the building holds pointers to doors and [data.usedDoor] is null,
    with a loop budget above the number of doors and any random source:
    the run returns; the stack of the building is as before; the verdict
    is true exactly when [data.usedDoor] then points to one of the doors
    of the building; on false it is still null and [data.doors] is
    empty. *)
Theorem behaviorTree_run_enters_or_runs_out {R : Type} (rand : R -> Z * R)
  (fuel : nat) (ds : list Door) (w : World) (g : R) :
  stacks w building_doors = map Some ds ->
  slots w data_usedDoor = nullptr ->
  List.length ds < fuel ->
  exists r w' g',
    BehaviourTree.run (behaviorTree rand fuel) (w, g) = Done (r, (w', g'))
    /\ stacks w' building_doors = stacks w building_doors
    /\ (r = true <-> exists d, In d ds /\ slots w' data_usedDoor = Some d)
    /\ (r = false -> slots w' data_usedDoor = nullptr /\ stacks w' data_doors = []).
Proof. exact (behaviorTree_run_Done rand fuel ds w g). Qed.

Lemma behaviorTree_run_enters_or_runs_out_witness :
  exists r w' g',
    BehaviourTree.run (behaviorTree counting_rand 3)
      (set_stack building_doors (map Some [mkDoor 1; mkDoor 2]) emptyWorld, 0%Z)
    = Done (r, (w', g'))
    /\ (r = true <->
        exists d, In d [mkDoor 1; mkDoor 2] /\ slots w' data_usedDoor = Some d).
Proof.
  destruct (behaviorTree_run_enters_or_runs_out counting_rand 3
              [mkDoor 1; mkDoor 2]
              (set_stack building_doors (map Some [mkDoor 1; mkDoor 2]) emptyWorld)
              0%Z)
    as (r & w' & g' & E & _ & Hr & _).
  - reflexivity.
  - reflexivity.
  - simpl. lia.
  - exists r, w', g'. split; [exact E | exact Hr].
Defined.

(** [main], with a loop budget above its five doors, from any state of
    the random source and whatever [data.currentDoor] holds at the
    start: the program returns.  Either it ends with the line of
    congratulations and [data.usedDoor] points to one of the doors 1 to
    5, or it ends with the line of regret, [data.usedDoor] is null and
    [data.doors] is empty. *)
Theorem main_returns {R : Type} (rand : R -> Z * R) (fuel : nat) (g : R)
  (garbage : Ptr) :
  5 < fuel ->
  exists w' g',
    main rand fuel g garbage = Done (w', g')
    /\ ((exists k out,
           1 <= k <= 5
           /\ slots w' data_usedDoor = door k
           /\ cout w' = (out ++ "Congratulations!  You made it into the building!"
                         ++ endl)%string)
        \/ (exists out,
              slots w' data_usedDoor = nullptr
              /\ stacks w' data_doors = []
              /\ cout w' = (out ++ "Sorry.  You have failed to enter the building."
                            ++ endl)%string)).
Proof.
  intros Hfuel. unfold main.
  rewrite (Building_new_Done fuel 5) by (unfold INT_MAX; simpl; lia).
  cbn [bind].
  destruct (behaviorTree_run_Done rand fuel
              (map (fun k => mkDoor (Z.of_nat k)) (seq 1 5))
              (initialWorld (Building.make (map door (seq 1 (Z.to_nat 5)))) garbage)
              g)
    as (r & w1 & g1 & E & _ & Hr & Hf).
  - reflexivity.
  - reflexivity.
  - simpl. lia.
  - rewrite E. cbn [bind]. destruct r.
    + eexists _, g1. split; [reflexivity|]. left.
      destruct (proj1 Hr eq_refl) as (d & Hin & Hd).
      apply in_map_iff in Hin. destruct Hin as (k & <- & Hk).
      apply in_seq in Hk. exists k, (cout w1).
      split; [lia|]. split; [exact Hd | reflexivity].
    + eexists _, g1. split; [reflexivity|]. right.
      destruct (Hf eq_refl) as [Hnone Hempty]. exists (cout w1).
      split; [exact Hnone|]. split; [exact Hempty | reflexivity].
Qed.

Lemma main_returns_witness :
  exists w' g',
    main counting_rand 6 0%Z nullptr = Done (w', g')
    /\ ((exists k out,
           1 <= k <= 5
           /\ slots w' data_usedDoor = door k
           /\ cout w' = (out ++ "Congratulations!  You made it into the building!"
                         ++ endl)%string)
        \/ (exists out,
              slots w' data_usedDoor = nullptr
              /\ stacks w' data_doors = []
              /\ cout w' = (out ++ "Sorry.  You have failed to enter the building."
                            ++ endl)%string)).
Proof.
  apply (main_returns counting_rand 6 0%Z nullptr). lia.
Defined.
